(** * YouTube transcript demo: the transcript resolver, the text cleaner
      and the client orchestrator

    A shallow embedding of the three TypeScript sources:

    - the [/api/youtube] route ([extractVideoId], [getVideoInfo],
      [downloadAudio], [validateOpenAIKey], [transcribeWithWhisper], [POST]),
      which the repository holds in two revisions: the earlier one without
      credential validation and with a fixed status 500 for every failure of
      the fallback, and the later one with [validateOpenAIKey] and the
      401/429 status mapping;
    - the [/api/anthropic] route ([POST]);
    - [handleSubmit] and [handleReset] of [page.tsx].

    Conventions of the embedding.  A JavaScript string is a [string]: one
    [ascii] stands for one code unit (the code units below 256, so that
    character 160 is the no-break space).  [console.log] and [console.error]
    have no effect that the routes observe and are left out.  An [await] is
    a sequencing point only: each handler runs from its first statement to
    its [return] without interleaving, so asynchronous calls are ordinary
    calls in a state-and-exception monad.  The outside world (the captions
    library, [yt-dlp], the speech-to-text and text-generation services, the
    process environment, the clock) is a record of oracles over which every
    theorem quantifies.  The body of a request is a parsed JSON value
    ([Http.Value]); the handlers are given twice, from their first test on
    for the members the page sends ([YouTube.POST], [Anthropic.POST]) and
    from [await request.json()] on for every body ([Handlers]). *)

From Stdlib Require Import String Ascii List ZArith Lia Bool.
From Stdlib Require Import DecimalString SpecFloat.
From stdpp Require Import base gmap strings.

Local Open Scope string_scope.
Local Open Scope list_scope.

(** ** JavaScript strings *)

Module Js.

(** [s.startsWith(p)], returning what follows the prefix. *)
Fixpoint strip_prefix (p s : string) : option string :=
  match p, s with
  | EmptyString, _ => Some s
  | String a p', String b s' =>
      if Ascii.eqb a b then strip_prefix p' s' else None
  | String _ _, EmptyString => None
  end.

Definition startsWith (s p : string) : bool :=
  match strip_prefix p s with Some _ => true | None => false end.

(** [s.includes(p)]: [p] occurs somewhere in [s]. *)
Fixpoint includes (s p : string) : bool :=
  startsWith s p ||
  match s with
  | EmptyString => false
  | String _ s' => includes s' p
  end.

(** The longest prefix whose characters all satisfy [f], and the rest. *)
Fixpoint take_while (f : ascii -> bool) (s : string) : string :=
  match s with
  | String c s' => if f c then String c (take_while f s') else EmptyString
  | EmptyString => EmptyString
  end.

Fixpoint drop_while (f : ascii -> bool) (s : string) : string :=
  match s with
  | String c s' => if f c then drop_while f s' else s
  | EmptyString => EmptyString
  end.

Fixpoint all_chars (f : ascii -> bool) (s : string) : bool :=
  match s with
  | String c s' => f c && all_chars f s'
  | EmptyString => true
  end.

Definition code (c : ascii) : nat := nat_of_ascii c.

Definition in_range (lo hi : nat) (c : ascii) : bool :=
  Nat.leb lo (code c) && Nat.leb (code c) hi.

(** The class [\s] of a regular expression, which is also what [trim]
    strips: tab, line feed, vertical tab, form feed, carriage return, space
    and the no-break space (the members below 256). *)
Definition is_space (c : ascii) : bool :=
  in_range 9 13 c || Nat.eqb (code c) 32 || Nat.eqb (code c) 160.

(** [parts.join(sep)] *)
Fixpoint join (sep : string) (parts : list string) : string :=
  match parts with
  | [] => EmptyString
  | [p] => p
  | p :: rest => p +:+ sep +:+ join sep rest
  end.

(** [s.replace(/\s+/g, ' ')]: every maximal run of white space becomes one
    space.  [in_run] says that the previous character belonged to a run
    whose replacement has been emitted already. *)
Fixpoint replace_ws_from (in_run : bool) (s : string) : string :=
  match s with
  | EmptyString => EmptyString
  | String c s' =>
      if is_space c
      then if in_run then replace_ws_from true s'
           else String " " (replace_ws_from true s')
      else String c (replace_ws_from false s')
  end.

Definition replace_ws (s : string) : string := replace_ws_from false s.

(** [s.trimEnd()], [s.trimStart()] and [s.trim()] *)
Fixpoint trimEnd (s : string) : string :=
  match s with
  | EmptyString => EmptyString
  | String c s' =>
      match trimEnd s' with
      | EmptyString => if is_space c then EmptyString else String c EmptyString
      | t => String c t
      end
  end.

Definition trimStart (s : string) : string := drop_while is_space s.

Definition trim (s : string) : string := trimEnd (trimStart s).

(** A JavaScript string is falsy exactly when it is empty; [undefined] and
    [null] are [None]. *)
Definition truthy (v : option string) : bool :=
  match v with
  | Some s => negb (String.eqb s EmptyString)
  | None => false
  end.

(** What a handler can [throw] or reject with.  [is_Error] is
    [e instanceof Error]; [e_status] and [e_code] are the [status] and
    [code] properties an API error of the OpenAI client carries;
    [e_response] is present on an error of [axios] that has an answer
    attached, and holds the [error] member of that answer's body. *)
Record Thrown := {
  is_Error : bool;
  e_status : option Z;
  e_code : option string;
  e_message : string;
  e_response : option (option string)
}.

(** [new Error(msg)] *)
Definition new_Error (msg : string) : Thrown :=
  {| is_Error := true; e_status := None; e_code := None; e_message := msg;
     e_response := None |}.

(** The double quote character, for messages that contain one. *)
Definition dquote : string := String (ascii_of_nat 34) EmptyString.

(** [`${n}`] for a non-negative integer. *)
Definition decimal (n : Z) : string :=
  NilEmpty.string_of_uint (N.to_uint (Z.to_N n)).

End Js.

(** ** Handlers as state-and-exception computations *)

Module Eff.
Import Js.

Inductive Outcome (A : Type) : Type :=
| Returns (a : A)
| Throws (e : Thrown).
Arguments Returns {A} a.
Arguments Throws {A} e.

Section Monad.
Context {W : Type}.

Definition M (A : Type) : Type := W -> Outcome A * W.

Definition ret {A} (a : A) : M A := fun w => (Returns a, w).

Definition throw {A} (e : Thrown) : M A := fun w => (Throws e, w).

Definition bind {A B} (m : M A) (k : A -> M B) : M B :=
  fun w =>
    match m w with
    | (Returns a, w') => k a w'
    | (Throws e, w') => (Throws e, w')
    end.

(** [try { body } catch (e) { handler e }] *)
Definition try_catch {A} (body : M A) (handler : Thrown -> M A) : M A :=
  fun w =>
    match body w with
    | (Returns a, w') => (Returns a, w')
    | (Throws e, w') => handler e w'
    end.

(** [try { x = body } catch (e) { return handler e }  rest x]: the handler
    leaves the function, and [rest] runs outside the [try]. *)
Definition try_or_return {A R} (body : M A) (handler : Thrown -> M R)
    (rest : A -> M R) : M R :=
  fun w =>
    match body w with
    | (Returns a, w') => rest a w'
    | (Throws e, w') => handler e w'
    end.

(** [try { body } finally { cleanup }]: [cleanup] runs on both exits; when
    it throws, its exception replaces the outcome of [body]. *)
Definition try_finally {A} (body : M A) (cleanup : M unit) : M A :=
  fun w =>
    match body w with
    | (r, w') =>
        match cleanup w' with
        | (Returns _, w'') => (r, w'')
        | (Throws e, w'') => (Throws e, w'')
        end
    end.

End Monad.

Arguments M W A : clear implicits.

Declare Scope eff_scope.
Delimit Scope eff_scope with eff.
Notation "x <- m ;; k" := (bind m (fun x => k))
  (at level 100, m at next level, right associativity) : eff_scope.
Notation "m ;; k" := (bind m (fun _ => k))
  (at level 100, right associativity) : eff_scope.

End Eff.

(** ** The transcript resolver: [/api/youtube] *)

Module YouTube.
Import Js Eff.
Local Open Scope eff_scope.

(** The alternatives of the first pattern of [extractVideoId], in the order
    in which the regular expression lists them. *)
Definition markers : list string :=
  [ "youtube.com/watch?v="; "youtu.be/"; "youtube.com/embed/"; "youtube.com/v/" ].

(** The complement of the class [[^&\n?#]]. *)
Definition is_delim (c : ascii) : bool :=
  Ascii.eqb c "&" || Nat.eqb (code c) 10 || Ascii.eqb c "?" || Ascii.eqb c "#".

Definition id_char (c : ascii) : bool := negb (is_delim c).

(** One alternative tried at the current position: the marker, then the
    greedy group [([^&\n?#]+)], which needs one character at least. *)
Definition capture_after (s marker : string) : option string :=
  match strip_prefix marker s with
  | Some rest =>
      match take_while id_char rest with
      | EmptyString => None
      | v => Some v
      end
  | None => None
  end.

Fixpoint first_capture (s : string) (ms : list string) : option string :=
  match ms with
  | [] => None
  | m :: ms' =>
      match capture_after s m with
      | Some v => Some v
      | None => first_capture s ms'
      end
  end.

(** The first pattern is not anchored: the matcher tries every start
    position from the left and stops at the first one that matches. *)
Fixpoint match_url (s : string) : option string :=
  match first_capture s markers with
  | Some v => Some v
  | None =>
      match s with
      | EmptyString => None
      | String _ s' => match_url s'
      end
  end.

(** The class [[a-zA-Z0-9_-]]. *)
Definition bare_char (c : ascii) : bool :=
  in_range 97 122 c || in_range 65 90 c || in_range 48 57 c
  || Ascii.eqb c "_" || Ascii.eqb c "-".

(** The second pattern, [/^([a-zA-Z0-9_-]{11})$/]. *)
Definition match_bare (s : string) : option string :=
  if Nat.eqb (String.length s) 11 && all_chars bare_char s then Some s else None.

Definition extractVideoId (url : string) : option string :=
  match match_url url with
  | Some v => Some v
  | None => match_bare url
  end.

(** *** The outside world *)

Record TranscriptItem := { text : string }.

Record VideoInfo := { title : string; duration : Z; id : string }.

Record WhisperResult := { wr_transcript : string; wr_title : string }.

(** The two revisions of the route that the repository holds: [Earlier]
    is the copy without [validateOpenAIKey], [Later] the copy with it.
    They differ in [transcribeWithWhisper], in the configuration checks of
    [POST] and in the handler of the inner [catch]. *)
Inductive Revision := Earlier | Later.

(** The oracles a request runs against.  [download] may change the file
    system in any way and may fail after doing so.  The search for the
    utility and the metadata probe are shell commands as well, the probe
    with the locator spliced into its command line; what those two do to
    the file system is outside this model: [files] follows the download and
    the route's own [unlinkSync] only. *)
Record Host := {
  OPENAI_API_KEY : option string;
  fetchTranscript : string -> Thrown + option (list TranscriptItem);
  yt_dlp_installed : bool;
  dump_json : string -> Thrown + VideoInfo;
  download : string -> string -> gset string -> option Thrown * gset string;
  transcriptions_create : string -> Thrown + string;
  Date_now : Z;
  tmpdir : string
}.

(** What the route does to the outside, in order. *)
Inductive Call :=
| CallFetchTranscript (videoId : string)
| CallWhich
| CallDumpJson (videoUrl : string)
| CallDownload (videoUrl outputPath : string)
| CallTranscribe (file : string)
| CallUnlink (path : string).

Record World := { files : gset string; calls : list Call }.

Definition log (c : Call) : M World unit :=
  fun w => (Returns tt, {| files := files w; calls := calls w ++ [c] |}).

Definition of_result {A} (r : Thrown + A) : M World A :=
  match r with
  | inl e => throw e
  | inr a => ret a
  end.

Inductive Body :=
| ErrorBody (error : string)
| TranscriptBody (content title : string) (usedWhisper : bool).

Record Response := { body : Body; status : Z }.

(** [NextResponse.json(body, { status })]; the status is 200 when it is
    not given. *)
Definition json (b : Body) (st : Z) : Response := {| body := b; status := st |}.

(** The status of the answer of a handler that returned. *)
Definition status_of (r : Outcome Response) : option Z :=
  match r with
  | Returns resp => Some (status resp)
  | Throws _ => None
  end.

(** *** The functions of the route *)

Definition getVideoInfo (h : Host) (videoUrl : string) : M World VideoInfo :=
  try_catch
    (log (CallDumpJson videoUrl) ;; of_result (dump_json h videoUrl))
    (fun error =>
       throw (new_Error ("Failed to get video info: " +:+
                         (if is_Error error then e_message error
                          else "Unknown error")))).

Definition downloadAudio (h : Host) (videoUrl outputPath : string) : M World unit :=
  log (CallDownload videoUrl outputPath) ;;
  fun w =>
    match download h videoUrl outputPath (files w) with
    | (None, fs) => (Returns tt, {| files := fs; calls := calls w |})
    | (Some e, fs) => (Throws e, {| files := fs; calls := calls w |})
    end.

Definition validateOpenAIKey (apiKey : option string) : M World unit :=
  match apiKey with
  | Some key =>
      if negb (truthy apiKey) then
        throw (new_Error "OPENAI_API_KEY is not set in environment variables")
      else if negb (startsWith key "sk-") then
        throw (new_Error ("OPENAI_API_KEY appears to be invalid (should start with "
                          +:+ dquote +:+ "sk-" +:+ dquote +:+ ")"))
      else if Nat.ltb (String.length key) 20 then
        throw (new_Error "OPENAI_API_KEY appears to be too short")
      else ret tt
  | None => throw (new_Error "OPENAI_API_KEY is not set in environment variables")
  end.

Definition existsSync (p : string) : M World bool :=
  fun w => (Returns (bool_decide (p ∈ files w)), w).

Definition unlinkSync (p : string) : M World unit :=
  log (CallUnlink p) ;;
  fun w => (Returns tt, {| files := files w ∖ {[ p ]}; calls := calls w |}).

(** [path.join(os.tmpdir(), `whisper_audio_${Date.now()}.mp3`)] *)
Definition tempFile (h : Host) : string :=
  tmpdir h +:+ "/" +:+ "whisper_audio_" +:+ decimal (Date_now h) +:+ ".mp3".

(** [new OpenAI({ apiKey })] only builds the client and is left out: [POST]
    calls this function with a credential that is set.  The later revision
    validates the credential first; the earlier one does not. *)
Definition transcribeWithWhisper (rev : Revision) (h : Host) (videoUrl : string)
  : M World WhisperResult :=
  match rev with
  | Later => validateOpenAIKey (OPENAI_API_KEY h)
  | Earlier => ret tt
  end ;;
  info <- getVideoInfo h videoUrl ;;
  try_finally
    (downloadAudio h videoUrl (tempFile h) ;;
     log (CallTranscribe (tempFile h)) ;;
     transcription <- of_result (transcriptions_create h (tempFile h)) ;;
     ret {| wr_transcript := transcription; wr_title := title info |})
    (present <- existsSync (tempFile h) ;;
     if present then unlinkSync (tempFile h) else ret tt).

(** The text the native path builds from the caption items:
    [items.map(item => item.text).join(' ').replace(/\s+/g, ' ').trim()]. *)
Definition nativeTranscript (items : list TranscriptItem) : string :=
  trim (replace_ws (join " " (map text items))).

(** The body of the outer [try]: step 1 of [POST]. *)
Definition nativeStep (h : Host) (videoId title : string) : M World Response :=
  log (CallFetchTranscript videoId) ;;
  transcriptItems <- of_result (fetchTranscript h videoId) ;;
  match transcriptItems with
  | Some ((_ :: _) as items) =>
      let transcript := nativeTranscript items in
      if Nat.leb 50 (String.length transcript) then
        ret (json (TranscriptBody transcript title false) 200)
      else throw (new_Error "Native transcript unavailable or too short")
  | _ => throw (new_Error "Native transcript unavailable or too short")
  end.

(** The body of the inner [try]: the fallback itself. *)
Definition whisperStep (rev : Revision) (h : Host) (url : string) : M World Response :=
  whisperResult <- transcribeWithWhisper rev h url ;;
  let transcript := wr_transcript whisperResult in
  let title := wr_title whisperResult in
  if negb (truthy (Some transcript)) || Nat.ltb (String.length transcript) 50 then
    throw (new_Error "Whisper transcription was empty or too short")
  else ret (json (TranscriptBody transcript title true) 200).

(** The tests of the later revision's handler on what the fallback threw. *)
Definition auth_like (e : Thrown) : bool :=
  bool_decide (e_status e = Some 401%Z)
  || bool_decide (e_code e = Some "invalid_api_key")
  || includes (e_message e) "API key"
  || includes (e_message e) "Incorrect API key".

Definition rate_like (e : Thrown) : bool :=
  bool_decide (e_status e = Some 429%Z) || includes (e_message e) "rate limit".

(** The handler of the inner [catch (whisperError)]. *)
Definition whisperFailure (rev : Revision) (whisperError : Thrown) : Response :=
  match rev with
  | Earlier =>
      let errorMessage :=
        if is_Error whisperError then
          if includes (e_message whisperError) "API key" then
            "Invalid OpenAI API key for Whisper transcription"
          else if includes (e_message whisperError) "rate limit" then
            "OpenAI rate limit reached. Please try again later."
          else "Whisper transcription failed: " +:+ e_message whisperError
        else "Failed to transcribe video" in
      json (ErrorBody errorMessage) 500
  | Later =>
      if is_Error whisperError then
        let errorMsg := e_message whisperError in
        if auth_like whisperError then
          json (ErrorBody "Invalid or incorrect OpenAI API key. Please check your OPENAI_API_KEY in .env.local and ensure it's valid. Get a new key at https://platform.openai.com/account/api-keys") 401
        else if rate_like whisperError then
          json (ErrorBody "OpenAI rate limit reached. Please try again later.") 429
        else if includes errorMsg "OPENAI_API_KEY is not set" then
          json (ErrorBody "OpenAI API key is not configured. Please add OPENAI_API_KEY to your .env.local file.") 500
        else json (ErrorBody ("Whisper transcription failed: " +:+ errorMsg)) 500
      else json (ErrorBody "Failed to transcribe video") 500
  end.

Definition missing_key_message (rev : Revision) : string :=
  match rev with
  | Earlier =>
      "No transcript available for this video, and OpenAI API key is not configured for Whisper fallback."
  | Later =>
      "No transcript available for this video, and OpenAI API key is not configured for Whisper fallback. Please add OPENAI_API_KEY to your .env.local file."
  end.

Definition missing_yt_dlp_message : string :=
  "No transcript available. Whisper fallback requires yt-dlp to be installed (brew install yt-dlp).".

(** [execSync('which yt-dlp')] throws when the utility is not found. *)
Definition which_yt_dlp (h : Host) : M World unit :=
  log CallWhich ;;
  if yt_dlp_installed h then ret tt
  else throw (new_Error "Command failed: which yt-dlp").

(** The handler of the outer [catch (nativeError)]: step 2 of [POST]. *)
Definition fallback (rev : Revision) (h : Host) (url : string) : M World Response :=
  if negb (truthy (OPENAI_API_KEY h)) then
    ret (json (ErrorBody (missing_key_message rev)) 500)
  else
    try_or_return
      match rev with
      | Later => validateOpenAIKey (OPENAI_API_KEY h)
      | Earlier => ret tt
      end
      (fun validationError =>
         ret (json (ErrorBody
                      (if is_Error validationError then e_message validationError
                       else "Invalid OpenAI API key format. Please check your OPENAI_API_KEY in .env.local."))
                   500))
      (fun _ =>
         try_or_return (which_yt_dlp h)
           (fun _ => ret (json (ErrorBody missing_yt_dlp_message) 500))
           (fun _ =>
              try_catch (whisperStep rev h url)
                (fun whisperError => ret (whisperFailure rev whisperError)))).

(** The handler of the route from its first test on; [url] is the [url]
    member of the request's JSON body when that member is a string, and
    [None] when the body has none.  [Handlers.youtube_POST] below is the
    handler from [await request.json()] on, for every body. *)
Definition POST (rev : Revision) (h : Host) (url : option string) : M World Response :=
  match url with
  | Some u =>
      if negb (truthy url) then ret (json (ErrorBody "No URL provided") 400)
      else
        match extractVideoId u with
        | Some videoId =>
            if negb (truthy (Some videoId)) then
              ret (json (ErrorBody "Invalid YouTube URL") 400)
            else
              let title := "YouTube Video " +:+ videoId in
              try_catch (nativeStep h videoId title)
                (fun nativeError => fallback rev h u)
        | None => ret (json (ErrorBody "Invalid YouTube URL") 400)
        end
  | None => ret (json (ErrorBody "No URL provided") 400)
  end.

End YouTube.

(** ** The text cleaner: [/api/anthropic] *)

Module Anthropic.
Import Js Eff.
Local Open Scope eff_scope.

(** A block of the remote message's [content] array.  The route reads the
    [text] member of the first block; a block of another type has none. *)
Inductive ContentBlock :=
| TextBlock (text : string)
| OtherBlock.

Definition block_text (b : ContentBlock) : option string :=
  match b with
  | TextBlock t => Some t
  | OtherBlock => None
  end.

Record Request := { model : string; max_tokens : Z; prompt : string }.

Record Host := {
  ANTHROPIC_API_KEY : option string;
  messages_create : Request -> Thrown + list ContentBlock
}.

(** The requests sent to the text-generation service, in order. *)
Record World := { sent : list Request }.

Inductive Body :=
| ErrorBody (error : string)
| ResultBody (result : option string).

Record Response := { body : Body; status : Z }.

Definition json (b : Body) (st : Z) : Response := {| body := b; status := st |}.

Definition nl : string := String (ascii_of_nat 10) EmptyString.

(** The template literal [fullPrompt]. *)
Definition fullPrompt (task content : string) : string :=
  "<task>" +:+ nl +:+ task +:+ nl +:+ "</task>" +:+ nl +:+ nl +:+
  "<content>" +:+ nl +:+ content +:+ nl +:+ "</content>".

Definition create (h : Host) (r : Request) : M World (list ContentBlock) :=
  fun w =>
    let w' := {| sent := sent w ++ [r] |} in
    match messages_create h r with
    | inl e => (Throws e, w')
    | inr blocks => (Returns blocks, w')
    end.

(** The handler of the route from its first test on; [content] and [task]
    are the members of the request's JSON body when they are strings, and
    [None] when the body has none.  [Handlers.anthropic_POST] below is the
    handler from [await request.json()] on, for every body. *)
Definition POST (h : Host) (content task : option string) : M World Response :=
  match content, task with
  | Some c, Some t =>
      if negb (truthy content) || negb (truthy task) then
        ret (json (ErrorBody "Content and task are required") 400)
      else if negb (truthy (ANTHROPIC_API_KEY h)) then
        ret (json (ErrorBody "Anthropic API key not configured") 500)
      else
        try_catch
          (message <- create h {| model := "claude-sonnet-4-5-20250929";
                                  max_tokens := 8000;
                                  prompt := fullPrompt t c |} ;;
           match message with
           | first :: _ => ret (json (ResultBody (block_text first)) 200)
           | [] =>
               throw (new_Error
                 "Cannot read properties of undefined (reading 'text')")
           end)
          (fun error =>
             ret (json (ErrorBody (if is_Error error then e_message error
                                   else "Failed to generate content")) 500))
  | _, _ => ret (json (ErrorBody "Content and task are required") 400)
  end.

(** The one request a cleaning call sends. *)
Definition request (content task : string) : Request :=
  {| model := "claude-sonnet-4-5-20250929"; max_tokens := 8000;
     prompt := fullPrompt task content |}.

End Anthropic.

(** ** The client orchestrator: [page.tsx] *)

Module Page.
Import Js Eff.
Local Open Scope eff_scope.

(** The component's state variables. *)
Record View := {
  youtubeUrl : string;
  processing : bool;
  rawTranscript : option string;
  cleanedTranscript : option string;
  videoTitle : option string;
  usedWhisper : bool;
  error : option string;
  currentStep : string
}.

(** The [data] of a fulfilled answer of each endpoint; a member that the
    answer lacks is [None]. *)
Record TranscriptData := {
  d_content : option string;
  d_title : option string;
  d_usedWhisper : option bool
}.

Record CleanData := { d_result : option string }.

(** How the two [axios.post] calls settle: fulfilled with the body of a 2xx
    answer, or rejected. *)
Record Net := {
  post_youtube : string -> Thrown + TranscriptData;
  post_anthropic : option string -> string -> Thrown + CleanData
}.

Inductive Event :=
| PostYoutube (url : string)
| PostAnthropic (content : option string) (task : string)
| Step (label : string).

Record World := { view : View; events : list Event }.

Definition emit (e : Event) : M World unit :=
  fun w => (Returns tt, {| view := view w; events := events w ++ [e] |}).

Definition update (f : View -> View) : M World unit :=
  fun w => (Returns tt, {| view := f (view w); events := events w |}).

Definition setProcessing (b : bool) : M World unit :=
  update (fun v => {| youtubeUrl := youtubeUrl v; processing := b;
    rawTranscript := rawTranscript v; cleanedTranscript := cleanedTranscript v;
    videoTitle := videoTitle v; usedWhisper := usedWhisper v;
    error := error v; currentStep := currentStep v |}).

Definition setRawTranscript (x : option string) : M World unit :=
  update (fun v => {| youtubeUrl := youtubeUrl v; processing := processing v;
    rawTranscript := x; cleanedTranscript := cleanedTranscript v;
    videoTitle := videoTitle v; usedWhisper := usedWhisper v;
    error := error v; currentStep := currentStep v |}).

Definition setCleanedTranscript (x : option string) : M World unit :=
  update (fun v => {| youtubeUrl := youtubeUrl v; processing := processing v;
    rawTranscript := rawTranscript v; cleanedTranscript := x;
    videoTitle := videoTitle v; usedWhisper := usedWhisper v;
    error := error v; currentStep := currentStep v |}).

Definition setVideoTitle (x : option string) : M World unit :=
  update (fun v => {| youtubeUrl := youtubeUrl v; processing := processing v;
    rawTranscript := rawTranscript v; cleanedTranscript := cleanedTranscript v;
    videoTitle := x; usedWhisper := usedWhisper v;
    error := error v; currentStep := currentStep v |}).

Definition setUsedWhisper (b : bool) : M World unit :=
  update (fun v => {| youtubeUrl := youtubeUrl v; processing := processing v;
    rawTranscript := rawTranscript v; cleanedTranscript := cleanedTranscript v;
    videoTitle := videoTitle v; usedWhisper := b;
    error := error v; currentStep := currentStep v |}).

Definition setError (x : option string) : M World unit :=
  update (fun v => {| youtubeUrl := youtubeUrl v; processing := processing v;
    rawTranscript := rawTranscript v; cleanedTranscript := cleanedTranscript v;
    videoTitle := videoTitle v; usedWhisper := usedWhisper v;
    error := x; currentStep := currentStep v |}).

Definition setCurrentStep (s : string) : M World unit :=
  emit (Step s) ;;
  update (fun v => {| youtubeUrl := youtubeUrl v; processing := processing v;
    rawTranscript := rawTranscript v; cleanedTranscript := cleanedTranscript v;
    videoTitle := videoTitle v; usedWhisper := usedWhisper v;
    error := error v; currentStep := s |}).

Definition setYoutubeUrl (s : string) : M World unit :=
  update (fun v => {| youtubeUrl := s; processing := processing v;
    rawTranscript := rawTranscript v; cleanedTranscript := cleanedTranscript v;
    videoTitle := videoTitle v; usedWhisper := usedWhisper v;
    error := error v; currentStep := currentStep v |}).

Definition of_result {A} (r : Thrown + A) : M World A :=
  match r with
  | inl e => throw e
  | inr a => ret a
  end.

(** [axios.post('/api/youtube', { url })] *)
Definition axios_post_youtube (net : Net) (url : string) : M World TranscriptData :=
  emit (PostYoutube url) ;; of_result (post_youtube net url).

(** [axios.post('/api/anthropic', { content, task })] *)
Definition axios_post_anthropic (net : Net) (content : option string)
    (task : string) : M World CleanData :=
  emit (PostAnthropic content task) ;; of_result (post_anthropic net content task).

Definition nl : string := String (ascii_of_nat 10) EmptyString.

(** The instruction [handleSubmit] sends with every transcript. *)
Definition cleaning_task : string :=
  join nl
    [ "You are an expert in analyzing long form content. Clean up this raw video transcript to prepare it as an article draft.";
      "";
      "Your tasks:";
      "1. Remove video-specific references: " +:+ dquote +:+ "video" +:+ dquote
        +:+ ", " +:+ dquote +:+ "subscribe" +:+ dquote
        +:+ ", " +:+ dquote +:+ "like the video" +:+ dquote
        +:+ ", " +:+ dquote +:+ "like button" +:+ dquote
        +:+ ", " +:+ dquote +:+ "watch" +:+ dquote
        +:+ ", " +:+ dquote +:+ "channel" +:+ dquote;
      "2. Remove chatter and small talk unrelated to the main topic";
      "3. Remove ALL commercial content, advertisements, and promotional material:";
      "   - Sponsored product mentions";
      "   - Discount codes and affiliate links";
      "   - Sponsor shoutouts";
      "   - Self-promotion of services/products";
      "   - Calls to action for purchasing";
      "4. Keep only the substantive educational or informational content";
      "5. Organize the content into clear paragraphs with logical flow";
      "6. Fix grammar and punctuation";
      "7. Preserve the original meaning and key insights";
      "";
      "Return ONLY the cleaned content, ready to be read as an article. Do not add any meta-commentary about what you did." ].

(** [a || b] on strings that may be absent. *)
Definition or_else (a : option string) (b : string) : string :=
  match a with
  | Some s => if String.eqb s EmptyString then b else s
  | None => b
  end.

(** [handleSubmit] *)
Definition handleSubmit (net : Net) : M World unit :=
  fun w0 =>
    let url := youtubeUrl (view w0) in
    if negb (truthy (Some (trim url))) then
      setError (Some "Please enter a YouTube URL") w0
    else
      (setProcessing true ;;
       setError None ;;
       setRawTranscript None ;;
       setCleanedTranscript None ;;
       setVideoTitle None ;;
       setUsedWhisper false ;;
       try_finally
         (try_catch
            (setCurrentStep "Fetching transcript..." ;;
             transcriptResponse <- axios_post_youtube net url ;;
             let raw := d_content transcriptResponse in
             let title := d_title transcriptResponse in
             let whisper :=
               match d_usedWhisper transcriptResponse with
               | Some b => b
               | None => false
               end in
             setRawTranscript raw ;;
             setVideoTitle title ;;
             setUsedWhisper whisper ;;
             setCurrentStep "Cleaning transcript with AI..." ;;
             cleanResponse <- axios_post_anthropic net raw cleaning_task ;;
             setCleanedTranscript (d_result cleanResponse) ;;
             setCurrentStep "Complete!")
            (fun err =>
               match e_response err with
               | Some error_member =>
                   setError (Some (or_else error_member "Failed to process video"))
               | None =>
                   setError (Some (if is_Error err then e_message err
                                   else "An error occurred"))
               end))
         (setProcessing false ;; setCurrentStep "")) w0.

(** [handleReset] of the first page. *)
Definition handleReset : M World unit :=
  setYoutubeUrl "" ;;
  setRawTranscript None ;;
  setCleanedTranscript None ;;
  setVideoTitle None ;;
  setUsedWhisper false ;;
  setError None ;;
  setCurrentStep "".

(** The states of a run, read off the component's state. *)
Inductive Phase := Idle | FetchingTranscript | CleaningTranscript | Complete | Failed.

Definition phase (v : View) : Phase :=
  if processing v then
    if String.eqb (currentStep v) "Cleaning transcript with AI..." then CleaningTranscript
    else if String.eqb (currentStep v) "Complete!" then Complete
    else FetchingTranscript
  else
    match error v, cleanedTranscript v with
    | Some _, _ => Failed
    | None, Some _ => Complete
    | None, None => Idle
    end.

(** The page served by the resolver route itself: an answer with a 2xx
    status fulfils the call, any other status rejects it with the answer
    attached. *)
Definition answer_of_route (r : YouTube.Response) : Thrown + TranscriptData :=
  if (200 <=? YouTube.status r)%Z && (YouTube.status r <? 300)%Z then
    inr match YouTube.body r with
        | YouTube.TranscriptBody c t u =>
            {| d_content := Some c; d_title := Some t; d_usedWhisper := Some u |}
        | YouTube.ErrorBody _ =>
            {| d_content := None; d_title := None; d_usedWhisper := None |}
        end
  else
    inl {| is_Error := true;
           e_status := Some (YouTube.status r);
           e_code := Some "ERR_BAD_REQUEST";
           e_message := "Request failed with status code "
                        +:+ decimal (YouTube.status r);
           e_response := Some match YouTube.body r with
                              | YouTube.ErrorBody e => Some e
                              | YouTube.TranscriptBody _ _ _ => None
                              end |}.

(** The page served by the resolver route itself, on a host [h] and a
    server world [sw].  Should the handler throw, the framework answers with
    status 500 and no [error] member. *)
Definition resolver_endpoint (rev : YouTube.Revision) (h : YouTube.Host)
    (sw : YouTube.World) (url : string) : Thrown + TranscriptData :=
  match fst (YouTube.POST rev h (Some url) sw) with
  | Returns r => answer_of_route r
  | Throws _ =>
      inl {| is_Error := true; e_status := Some 500%Z;
             e_code := Some "ERR_BAD_RESPONSE";
             e_message := "Request failed with status code 500";
             e_response := Some None |}
  end.

(** Some event of the list is a call of the text cleaner. *)
Definition cleaner_called (evs : list Event) : bool :=
  existsb (fun e => match e with PostAnthropic _ _ => true | _ => false end) evs.

(** What the page shows after a rejected call. *)
Definition shown_error (err : Thrown) : string :=
  match e_response err with
  | Some error_member => or_else error_member "Failed to process video"
  | None => if is_Error err then e_message err else "An error occurred"
  end.

(** A page on which a locator has been typed and nothing has run yet. *)
Definition typed (url : string) : World :=
  {| view := {| youtubeUrl := url; processing := false; rawTranscript := None;
                cleanedTranscript := None; videoTitle := None;
                usedWhisper := false; error := None; currentStep := "" |};
     events := [] |}.

End Page.

(** ** Concrete hosts, for the examples *)

Module Demo.
Import Js YouTube.

(** A host whose oracles answer the same whatever they are asked; a
    download leaves the output file behind, also when it fails. *)
Definition host (key : option string)
    (native : Thrown + option (list TranscriptItem)) (installed : bool)
    (info : Thrown + VideoInfo) (dl : option Thrown) (tr : Thrown + string)
  : Host :=
  {| OPENAI_API_KEY := key;
     fetchTranscript := fun _ => native;
     yt_dlp_installed := installed;
     dump_json := fun _ => info;
     download := fun _ p fs => (dl, fs ∪ {[ p ]});
     transcriptions_create := fun _ => tr;
     Date_now := 1700000000000;
     tmpdir := "/tmp" |}.

Definition start : World := {| files := ∅; calls := [] |}.

Definition good_key : string := "sk-0123456789abcdefghij".

Definition info : VideoInfo :=
  {| title := "A talk"; duration := 600; id := "abc12345678" |}.

Definition no_captions : Thrown := new_Error "Transcript is disabled on this video".

(** An API error of the speech-to-text client. *)
Definition api_error (st : Z) (c msg : string) : Thrown :=
  {| is_Error := true; e_status := Some st; e_code := Some c;
     e_message := msg; e_response := None |}.

(** No captions, a well-formed credential, the utility installed, a
    download that succeeds, and a speech-to-text service that answers [tr]. *)
Definition fallback_host (tr : Thrown + string) : Host :=
  host (Some good_key) (inl no_captions) true (inr info) None tr.

(** The captions library answers with one fragment. *)
Definition native_host (fragment : string) : Host :=
  host None (inr (Some [ {| text := fragment |} ])) false
    (inl no_captions) None (inl no_captions).

Definition watch_url : string := "https://www.youtube.com/watch?v=abc12345678".

Definition long_caption : string :=
  "This caption is long enough to pass the threshold of fifty characters.".

Definition spaced_speech : string :=
  "  Speech  with   runs of spaces, kept as the service sent them, to the end.  ".

End Demo.

(** ** The notions of the statements

    First the specification's own notions, written after its words: the
    supported shapes of a locator, the words of a text and the captions
    joined, a malformed credential.  Then what the statements need to speak
    about a run of the resolver: what the pattern captures, the text of a
    successful native path, and the exits of the handler. *)

Module Spec.
Import Js.

(** An 11-character video identifier. *)
Definition video_id (s : string) : bool :=
  Nat.eqb (String.length s) 11 && all_chars YouTube.bare_char s.

(** The first [n] characters of [s]. *)
Fixpoint first_n (n : nat) (s : string) : string :=
  match n, s with
  | S n', String c s' => String c (first_n n' s')
  | _, _ => EmptyString
  end.

(** [s] starts with one of the URL markers followed by an 11-character
    identifier. *)
Definition shape_here (s : string) : bool :=
  existsb
    (fun m =>
       match strip_prefix m s with
       | Some rest => video_id (first_n 11 rest)
       | None => false
       end)
    YouTube.markers.

Fixpoint shape_somewhere (s : string) : bool :=
  shape_here s ||
  match s with
  | EmptyString => false
  | String _ s' => shape_somewhere s'
  end.

(** The input has one of the supported shapes: [watch?v=ID], the short link
    [/ID], [/embed/ID], [/v/ID] with an 11-character [ID], whatever precedes
    and follows it, or the bare [ID]. *)
Definition supported_shape (url : string) : bool :=
  shape_somewhere url || video_id url.

(** The words of a text: its maximal runs of characters that are not white
    space, in order. *)
Fixpoint words (s : string) : list string :=
  match s with
  | EmptyString => []
  | String c s' =>
      if is_space c then words s'
      else
        match s' with
        | EmptyString => [String c EmptyString]
        | String d _ =>
            if is_space d then String c EmptyString :: words s'
            else
              match words s' with
              | w :: ws => String c w :: ws
              | [] => [String c EmptyString]
              end
        end
  end.

(** "Concatenate the fragments in their given order, collapse internal
    white-space runs to single spaces, and trim": the words of the
    fragments, in order, with one space between neighbours. *)
Definition joined_captions (fragments : list string) : string :=
  join " " (flat_map words fragments).

(** The group that the URL pattern captures when it matches at the start of
    [s]: a marker, then [v], a non-empty run of characters other than
    [&], line feed, [?] and [#] that stops at the end of [s] or before one
    of those four. *)
Definition stops (rest : string) : Prop :=
  match rest with
  | EmptyString => True
  | String c _ => YouTube.is_delim c = true
  end.

Definition captures (s v : string) : Prop :=
  exists m rest,
    In m YouTube.markers /\ s = m +:+ v +:+ rest /\ v <> EmptyString /\
    all_chars YouTube.id_char v = true /\ stops rest.

(** [v] is captured at the leftmost position of [url] where the pattern
    matches. *)
Definition leftmost_capture (url v : string) : Prop :=
  exists pre suf,
    url = pre +:+ suf /\ captures suf v /\
    forall pre' suf' v',
      url = pre' +:+ suf' -> String.length pre' < String.length pre ->
      ~ captures suf' v'.

(** The pattern matches nowhere in [url]. *)
Definition no_capture (url : string) : Prop :=
  forall pre suf v, url = pre +:+ suf -> ~ captures suf v.

(** No marker starts inside [pre]: each of them starts with [y], and [pre]
    has none. *)
Definition no_marker_start (pre : string) : bool :=
  all_chars (fun c => negb (Ascii.eqb c "y")) pre.

(** The text of the native path when it succeeds: the captions library
    answers with a non-empty list whose text reaches the threshold of 50
    characters. *)
Definition native_text (h : YouTube.Host) (videoId : string) : option string :=
  match YouTube.fetchTranscript h videoId with
  | inr (Some (i :: l)) =>
      let t := YouTube.nativeTranscript (i :: l) in
      if Nat.leb 50 (String.length t) then Some t else None
  | _ => None
  end.

(** A malformed fallback credential: "empty, wrong prefix, too short". *)
Definition malformed_credential (key : option string) : bool :=
  match key with
  | Some k =>
      String.eqb k "" || negb (startsWith k "sk-") || Nat.ltb (String.length k) 20
  | None => true
  end.

(** The world after the route has made the calls [cs] and left the files
    alone. *)
Definition after (w : YouTube.World) (cs : list YouTube.Call) : YouTube.World :=
  {| YouTube.files := YouTube.files w; YouTube.calls := YouTube.calls w ++ cs |}.

(** The request carries no usable locator. *)
Definition bad_input (url : option string) : Prop :=
  truthy url = false \/
  exists u, url = Some u /\ YouTube.extractVideoId u = None.

(** The fallback cannot start: no credential, a malformed one (which only
    the later revision checks), or no download utility. *)
Definition configuration_failure (rev : YouTube.Revision) (h : YouTube.Host) : Prop :=
  truthy (YouTube.OPENAI_API_KEY h) = false \/
  (rev = YouTube.Later /\ malformed_credential (YouTube.OPENAI_API_KEY h) = true) \/
  YouTube.yt_dlp_installed h = false.

(** The world in which the fallback itself starts: after the request for
    the captions and the search for the download utility. *)
Definition at_fallback (w : YouTube.World) (videoId : string) : YouTube.World :=
  after (after w [YouTube.CallFetchTranscript videoId]) [YouTube.CallWhich].

(** The ways in which [POST] can answer, each with the world it leaves. *)
Inductive Exit (rev : YouTube.Revision) (h : YouTube.Host) (url : option string)
    (w : YouTube.World) : YouTube.Response -> YouTube.World -> Prop :=
| ExitBadInput msg :
    bad_input url ->
    Exit rev h url w (YouTube.json (YouTube.ErrorBody msg) 400) w
| ExitNative u videoId t :
    url = Some u -> YouTube.extractVideoId u = Some videoId ->
    native_text h videoId = Some t ->
    Exit rev h url w
      (YouTube.json (YouTube.TranscriptBody t ("YouTube Video " +:+ videoId) false) 200)
      (after w [YouTube.CallFetchTranscript videoId])
| ExitNoCredential u videoId :
    url = Some u -> YouTube.extractVideoId u = Some videoId ->
    native_text h videoId = None ->
    truthy (YouTube.OPENAI_API_KEY h) = false ->
    Exit rev h url w
      (YouTube.json (YouTube.ErrorBody (YouTube.missing_key_message rev)) 500)
      (after w [YouTube.CallFetchTranscript videoId])
| ExitMalformedCredential u videoId msg :
    url = Some u -> YouTube.extractVideoId u = Some videoId ->
    native_text h videoId = None ->
    rev = YouTube.Later ->
    truthy (YouTube.OPENAI_API_KEY h) = true ->
    malformed_credential (YouTube.OPENAI_API_KEY h) = true ->
    includes msg "OPENAI_API_KEY" = true ->
    Exit rev h url w (YouTube.json (YouTube.ErrorBody msg) 500)
      (after w [YouTube.CallFetchTranscript videoId])
| ExitNoUtility u videoId :
    url = Some u -> YouTube.extractVideoId u = Some videoId ->
    native_text h videoId = None ->
    YouTube.yt_dlp_installed h = false ->
    Exit rev h url w
      (YouTube.json (YouTube.ErrorBody YouTube.missing_yt_dlp_message) 500)
      (at_fallback w videoId)
| ExitFallbackFailed u videoId e w' :
    url = Some u -> YouTube.extractVideoId u = Some videoId ->
    native_text h videoId = None ->
    YouTube.whisperStep rev h u (at_fallback w videoId) = (Eff.Throws e, w') ->
    Exit rev h url w (YouTube.whisperFailure rev e) w'
| ExitTranscribed u videoId info t w' :
    url = Some u -> YouTube.extractVideoId u = Some videoId ->
    native_text h videoId = None ->
    YouTube.dump_json h u = inr info ->
    YouTube.transcriptions_create h (YouTube.tempFile h) = inr t ->
    50 <= String.length t ->
    snd (YouTube.whisperStep rev h u (at_fallback w videoId)) = w' ->
    Exit rev h url w
      (YouTube.json (YouTube.TranscriptBody t (YouTube.title info) true) 200) w'.

(** The outside calls that go over the network in the fallback: the
    metadata probe, the audio download and the transcription request. *)
Definition fallback_network_call (c : YouTube.Call) : bool :=
  match c with
  | YouTube.CallDumpJson _ | YouTube.CallDownload _ _ | YouTube.CallTranscribe _ => true
  | _ => false
  end.

End Spec.

(** ** What the pages render, and the second page's own handlers *)

Module Render.
Import Js Page.

(** [s.split(sep)] for a separator of one character: the pieces between
    the separators, empty ones included; the empty string gives one empty
    piece. *)
Fixpoint split (sep : ascii) (s : string) : list string :=
  match s with
  | EmptyString => [EmptyString]
  | String c s' =>
      if Ascii.eqb c sep then EmptyString :: split sep s'
      else
        match split sep s' with
        | p :: ps => String c p :: ps
        | [] => [String c EmptyString]
        end
  end.

(** The count both pages print beside a transcript:
    [text.split(' ').length]. *)
Definition word_count (text : string) : nat := length (split " " text).

(** The reset button is rendered under
    [(rawTranscript || cleanedTranscript) && ...]. *)
Definition reset_shown (v : View) : bool :=
  truthy (rawTranscript v) || truthy (cleanedTranscript v).

(** The label of the submit button:
    [processing ? currentStep : 'Extract Transcript']. *)
Definition submit_label (v : View) : string :=
  if processing v then currentStep v else "Extract Transcript".

(** [transcriptResponse.data.usedWhisper || false] *)
Definition whisper_flag (d : TranscriptData) : bool :=
  match d_usedWhisper d with
  | Some b => b
  | None => false
  end.

(** The first call of a run is fulfilled. *)
Definition fulfilled {D} (r : Thrown + D) : bool :=
  match r with
  | inr _ => true
  | inl _ => false
  end.

End Render.

Module Page2.
Import Js Eff Page.
Local Open Scope eff_scope.

(** The second page has the state of the first and two variables more. *)
Record View2 := {
  base : View;
  copied : bool;
  showRawTranscript : bool
}.

(** The clipboard, and the delays of the timers that [handleCopy] has set
    and that have not fired yet; each of them runs [setCopied(false)]. *)
Record World2 := {
  view2 : View2;
  events2 : list Event;
  clipboard : option string;
  timers : list Z
}.

(** A handler of the first page run on the second page. *)
Definition on_base {A} (m : M World A) : M World2 A :=
  fun w =>
    match m {| view := base (view2 w); events := events2 w |} with
    | (r, w') =>
        (r, {| view2 := {| base := view w'; copied := copied (view2 w);
                           showRawTranscript := showRawTranscript (view2 w) |};
               events2 := events w';
               clipboard := clipboard w;
               timers := timers w |})
    end.

Definition setCopied (b : bool) : M World2 unit :=
  fun w =>
    (Returns tt,
     {| view2 := {| base := base (view2 w); copied := b;
                    showRawTranscript := showRawTranscript (view2 w) |};
        events2 := events2 w; clipboard := clipboard w; timers := timers w |}).

Definition setShowRawTranscript (b : bool) : M World2 unit :=
  fun w =>
    (Returns tt,
     {| view2 := {| base := base (view2 w); copied := copied (view2 w);
                    showRawTranscript := b |};
        events2 := events2 w; clipboard := clipboard w; timers := timers w |}).

(** [navigator.clipboard.writeText(text)]: [refused] tells whether the
    browser rejects the write, and with what. *)
Definition writeText (refused : string -> option Thrown) (text : string)
  : M World2 unit :=
  fun w =>
    match refused text with
    | Some e => (Throws e, w)
    | None =>
        (Returns tt,
         {| view2 := view2 w; events2 := events2 w;
            clipboard := Some text; timers := timers w |})
    end.

(** [setTimeout(() => setCopied(false), delay)] *)
Definition setTimeout (delay : Z) : M World2 unit :=
  fun w =>
    (Returns tt,
     {| view2 := view2 w; events2 := events2 w; clipboard := clipboard w;
        timers := timers w ++ [delay] |}).

(** The oldest pending timer fires. *)
Definition fire : M World2 unit :=
  fun w =>
    match timers w with
    | [] => (Returns tt, w)
    | _ :: rest =>
        setCopied false
          {| view2 := view2 w; events2 := events2 w; clipboard := clipboard w;
             timers := rest |}
    end.

(** [handleCopy] *)
Definition handleCopy (refused : string -> option Thrown) : M World2 unit :=
  fun w =>
    match cleanedTranscript (base (view2 w)) with
    | Some text =>
        if negb (truthy (Some text)) then (Returns tt, w)
        else
          try_catch
            (writeText refused text ;;
             setCopied true ;;
             setTimeout 2000)
            (fun err => ret tt) w
    | None => (Returns tt, w)
    end.

(** [handleSubmit] of the second page is that of the first. *)
Definition handleSubmit (net : Net) : M World2 unit :=
  on_base (Page.handleSubmit net).

(** [handleReset] of the second page. *)
Definition handleReset : M World2 unit :=
  on_base Page.handleReset ;; setShowRawTranscript false.

(** The second page showing a cleaned text, with nothing copied yet. *)
Definition showing (cleaned : string) : World2 :=
  {| view2 := {| base := {| youtubeUrl := "https://youtu.be/abc12345678";
                            processing := false;
                            rawTranscript := Some "raw  text";
                            cleanedTranscript := Some cleaned;
                            videoTitle := Some "A talk";
                            usedWhisper := false; error := None;
                            currentStep := "" |};
                 copied := false; showRawTranscript := true |};
     events2 := []; clipboard := None; timers := [] |}.

End Page2.

(** ** The two routes behind the page *)

Module Wire.
Import Js Eff Page.

(** The answer of the cleaner route as [axios] hands it to the page. *)
Definition answer_of_cleaner (r : Anthropic.Response) : Thrown + CleanData :=
  if (200 <=? Anthropic.status r)%Z && (Anthropic.status r <? 300)%Z then
    inr {| d_result := match Anthropic.body r with
                       | Anthropic.ResultBody x => x
                       | Anthropic.ErrorBody _ => None
                       end |}
  else
    inl {| is_Error := true;
           e_status := Some (Anthropic.status r);
           e_code := Some "ERR_BAD_REQUEST";
           e_message := "Request failed with status code "
                        +:+ decimal (Anthropic.status r);
           e_response := Some match Anthropic.body r with
                              | Anthropic.ErrorBody e => Some e
                              | Anthropic.ResultBody _ => None
                              end |}.

(** The cleaner route as the page's second endpoint, on a host [h] and a
    server world [sw]. *)
Definition cleaner_endpoint (h : Anthropic.Host) (sw : Anthropic.World)
    (content : option string) (task : string) : Thrown + CleanData :=
  match fst (Anthropic.POST h content (Some task) sw) with
  | Returns r => answer_of_cleaner r
  | Throws _ =>
      inl {| is_Error := true; e_status := Some 500%Z;
             e_code := Some "ERR_BAD_RESPONSE";
             e_message := "Request failed with status code 500";
             e_response := Some None |}
  end.

(** The page with both routes behind it. *)
Definition wired (rev : YouTube.Revision) (yh : YouTube.Host) (yw : YouTube.World)
    (ah : Anthropic.Host) (aw : Anthropic.World) : Net :=
  {| post_youtube := resolver_endpoint rev yh yw;
     post_anthropic := cleaner_endpoint ah aw |}.

End Wire.

(** ** Further notions of the statements *)

Module Notions.
Import Js YouTube.

(** The request passes the locator check, the native path fails, and the
    configuration checks of the revision pass: the fallback itself runs. *)
Definition reaches_fallback (rev : Revision) (h : Host) (u videoId : string) : Prop :=
  u <> EmptyString /\ extractVideoId u = Some videoId /\
  Spec.native_text h videoId = None /\
  truthy (OPENAI_API_KEY h) = true /\
  (rev = Earlier \/ Spec.malformed_credential (OPENAI_API_KEY h) = false) /\
  yt_dlp_installed h = true.

(** The error that [getVideoInfo] throws for a failure [e] of the probe. *)
Definition info_error (e : Thrown) : Thrown :=
  new_Error ("Failed to get video info: " +:+
             (if is_Error e then e_message e else "Unknown error")).

(** The files when [transcribeWithWhisper] is past its [finally], given
    the files [fs] that the download left. *)
Definition cleaned_up (h : Host) (fs : gset string) : gset string :=
  fs ∖ {[ tempFile h ]}.

(** The calls of the [finally]: the file is unlinked when it is there. *)
Definition cleanup_calls (h : Host) (fs : gset string) : list Call :=
  if bool_decide (tempFile h ∈ fs) then [CallUnlink (tempFile h)] else [].

(** The sequences of outside calls that one request can make, for a
    locator [u] with identifier [videoId]. *)
Definition call_sequences (h : Host) (u videoId : string) : list (list Call) :=
  let F := CallFetchTranscript videoId in
  let W := CallWhich in
  let J := CallDumpJson u in
  let D := CallDownload u (tempFile h) in
  let T := CallTranscribe (tempFile h) in
  let U := CallUnlink (tempFile h) in
  [ [F]; [F; W]; [F; W; J]; [F; W; J; D]; [F; W; J; D; U];
    [F; W; J; D; T]; [F; W; J; D; T; U] ].

(** No character of [s] is white space. *)
Definition spaceless (s : string) : bool :=
  all_chars (fun c => negb (is_space c)) s.

Fixpoint count_char (c : ascii) (s : string) : nat :=
  match s with
  | EmptyString => 0
  | String d s' => (if Ascii.eqb d c then 1 else 0) + count_char c s'
  end.

(** A character other than the slash, which every marker of the first
    pattern contains. *)
Definition not_slash (c : ascii) : bool := negb (Ascii.eqb c "/").

End Notions.

(** * The routes from the request on

    [YouTube.POST] and [Anthropic.POST] above are the handlers from their
    first test on, for a body whose members are strings or absent, which is
    what the page sends.  The handlers below start one line earlier, at
    [await request.json()], and take whatever body a client may send. *)

Module Http.
Import Js Eff.

(** A value of [JSON.parse].  A number is the double it is parsed to, in
    the representation of the IEEE 754 format. *)
Local Unset Elimination Schemes.
Inductive Value :=
| VNull
| VBool (b : bool)
| VNumber (x : spec_float)
| VString (s : string)
| VArray (items : list Value)
| VObject (members : list (string * Value)).
Local Set Elimination Schemes.

(** [await request.json()] is rejected when the body is not the text of a
    JSON value, and yields the parsed value otherwise. *)
Record Request := { request_json : Thrown + Value }.

Definition settle {W A} (r : Thrown + A) : M W A :=
  match r with
  | inl e => throw e
  | inr a => ret a
  end.

(** The own property [name] of a parsed object, whose members are listed
    as the text has them: of two members of one name [JSON.parse] keeps
    the later. *)
Fixpoint member (name : string) (members : list (string * Value)) : option Value :=
  match members with
  | [] => None
  | (k, v) :: rest =>
      match member name rest with
      | Some later => Some later
      | None => if String.eqb k name then Some v else None
      end
  end.

(** [const { name } = v], for a name that no prototype defines ([url],
    [content], [task]): [null] cannot be destructured, a primitive and an
    array have no such property, and [None] is [undefined]. *)
Definition destructure {W} (name : string) (v : Value) : M W (option Value) :=
  match v with
  | VNull =>
      throw (new_Error ("Cannot destructure property '" +:+ name
                        +:+ "' of 'object' as it is null."))
  | VObject members => ret (member name members)
  | VBool _ | VNumber _ | VString _ | VArray _ => ret None
  end.

(** [!!v]: [undefined], [null], [false], the zeros, [NaN] and the empty
    string are falsy, everything else is truthy. *)
Definition truthy_value (v : option Value) : bool :=
  match v with
  | None | Some VNull => false
  | Some (VBool b) => b
  | Some (VNumber (S754_zero _)) | Some (VNumber S754_nan) => false
  | Some (VNumber (S754_infinity _)) | Some (VNumber (S754_finite _ _ _)) => true
  | Some (VString s) => truthy (Some s)
  | Some (VArray _) | Some (VObject _) => true
  end.

(** What the embedding takes from the JavaScript runtime: the decimal
    representation of a number. *)
Record Runtime := { number_toString : spec_float -> string }.

(** [`${v}`] for a parsed value.  An array is joined with commas, [null]
    elements giving the empty string; an object is [[object Object]],
    unless it has a member [toString], which cannot be called. *)
Fixpoint ToString (rt : Runtime) (v : Value) : Thrown + string :=
  match v with
  | VNull => inr "null"
  | VBool b => inr (if b then "true" else "false")
  | VNumber x => inr (number_toString rt x)
  | VString s => inr s
  | VArray items =>
      (fix join_items (l : list Value) : Thrown + string :=
         match l with
         | [] => inr EmptyString
         | x :: rest =>
             match match x with
                   | VNull => inr EmptyString
                   | _ => ToString rt x
                   end with
             | inl e => inl e
             | inr s =>
                 match rest with
                 | [] => inr s
                 | _ :: _ =>
                     match join_items rest with
                     | inl e => inl e
                     | inr t => inr (s +:+ "," +:+ t)
                     end
                 end
             end
         end) items
  | VObject members =>
      match member "toString" members with
      | Some _ => inl (new_Error "Cannot convert object to primitive value")
      | None => inr "[object Object]"
      end
  end.

End Http.

Module Handlers.
Import Js Eff Http.
Local Open Scope eff_scope.

(** [POST] of [/api/youtube] from its first line.  [extractVideoId(url)]
    calls [url.match], which only a string has; that call and the two lines
    before it are outside every [try]. *)
Definition youtube_POST (rev : YouTube.Revision) (h : YouTube.Host)
    (request : Request) : M YouTube.World YouTube.Response :=
  body <- settle (request_json request) ;;
  url <- destructure "url" body ;;
  if negb (truthy_value url) then
    ret (YouTube.json (YouTube.ErrorBody "No URL provided") 400)
  else
    match url with
    | Some (VString u) => YouTube.POST rev h (Some u)
    | _ => throw (new_Error "url.match is not a function")
    end.

(** [POST] of [/api/anthropic] from its first line.  The template literal
    turns [task] and [content] into strings, in this order and inside the
    [try]. *)
Definition anthropic_POST (rt : Runtime) (h : Anthropic.Host)
    (request : Request) : M Anthropic.World Anthropic.Response :=
  body <- settle (request_json request) ;;
  content <- destructure "content" body ;;
  task <- destructure "task" body ;;
  match content, task with
  | Some c, Some t =>
      if negb (truthy_value content) || negb (truthy_value task) then
        ret (Anthropic.json (Anthropic.ErrorBody "Content and task are required") 400)
      else if negb (truthy (Anthropic.ANTHROPIC_API_KEY h)) then
        ret (Anthropic.json (Anthropic.ErrorBody "Anthropic API key not configured") 500)
      else
        try_catch
          (task_text <- settle (ToString rt t) ;;
           content_text <- settle (ToString rt c) ;;
           message <- Anthropic.create h (Anthropic.request content_text task_text) ;;
           match message with
           | first :: _ =>
               ret (Anthropic.json
                      (Anthropic.ResultBody (Anthropic.block_text first)) 200)
           | [] =>
               throw (new_Error
                 "Cannot read properties of undefined (reading 'text')")
           end)
          (fun error =>
             ret (Anthropic.json
                    (Anthropic.ErrorBody (if is_Error error then e_message error
                                          else "Failed to generate content")) 500))
  | _, _ =>
      ret (Anthropic.json (Anthropic.ErrorBody "Content and task are required") 400)
  end.

End Handlers.

Module Reading.
Import Js Http.

(** What the resolver makes of a request: [None] when the handler cannot
    read a locator from it (the body is not JSON, is [null], or has a
    [url] that is truthy and not a string), and otherwise the locator, or
    [Some None] when there is none to speak of. *)
Definition locator (request : Request) : option (option string) :=
  match request_json request with
  | inl _ | inr VNull => None
  | inr (VObject members) =>
      match member "url" members with
      | Some (VString u) => Some (Some u)
      | v => if truthy_value v then None else Some None
      end
  | inr _ => Some None
  end.

(** The status the claim gives a failure [e] of the fallback: 401 for a
    rejected credential, 429 for rate limiting, 500 otherwise; the earlier
    revision knows 500 only. *)
Definition rejected_credential (e : Thrown) : bool :=
  bool_decide (e_status e = Some 401%Z)
  || bool_decide (e_code e = Some "invalid_api_key")
  || includes (e_message e) "API key".

Definition rate_limited (e : Thrown) : bool :=
  bool_decide (e_status e = Some 429%Z) || includes (e_message e) "rate limit".

Definition failure_status (rev : YouTube.Revision) (e : Thrown) : Z :=
  match rev with
  | YouTube.Earlier => 500
  | YouTube.Later =>
      if is_Error e && rejected_credential e then 401
      else if is_Error e && rate_limited e then 429
      else 500
  end.

(** A request of the page: an object whose members are strings. *)
Definition posted (members : list (string * string)) : Request :=
  {| request_json := inr (VObject (map (fun m => (fst m, VString (snd m))) members)) |}.

End Reading.

(** * Facts about the string functions *)

Module StringFacts.
Import Js.

Lemma app_cons (x : ascii) (a b : string) :
  String x a +:+ b = String x (a +:+ b).
Proof. reflexivity. Qed.

Lemma app_nil_l (a : string) : EmptyString +:+ a = a.
Proof. reflexivity. Qed.

Lemma app_assoc (a b c : string) : (a +:+ b) +:+ c = a +:+ (b +:+ c).
Proof.
  induction a as [|x a IH]; [reflexivity|].
  now rewrite !app_cons, IH.
Qed.

Lemma app_nil_r (a : string) : a +:+ EmptyString = a.
Proof.
  induction a as [|x a IH]; [reflexivity|].
  now rewrite app_cons, IH.
Qed.

Lemma app_length (a b : string) :
  String.length (a +:+ b) = String.length a + String.length b.
Proof.
  induction a as [|x a IH]; [reflexivity|].
  rewrite app_cons. simpl. now rewrite IH.
Qed.

Lemma strip_prefix_app (p r : string) : strip_prefix p (p +:+ r) = Some r.
Proof.
  induction p as [|x p IH]; [reflexivity|].
  rewrite app_cons. simpl. now rewrite Ascii.eqb_refl.
Qed.

Lemma strip_prefix_inv (p s r : string) :
  strip_prefix p s = Some r -> s = p +:+ r.
Proof.
  revert s; induction p as [|x p IH]; intros s H; simpl in *.
  - now inversion H.
  - destruct s as [|y s]; [discriminate|].
    destruct (Ascii.eqb x y) eqn:E; [|discriminate].
    apply Ascii.eqb_eq in E; subst y. rewrite app_cons. f_equal. now apply IH.
Qed.

Lemma strip_prefix_iff (p s r : string) :
  strip_prefix p s = Some r <-> s = p +:+ r.
Proof.
  split; [apply strip_prefix_inv | intros ->; apply strip_prefix_app].
Qed.

Lemma take_drop_while (f : ascii -> bool) (s : string) :
  take_while f s +:+ drop_while f s = s.
Proof.
  induction s as [|c s IH]; simpl; [reflexivity|].
  destruct (f c); [now rewrite app_cons, IH | reflexivity].
Qed.

Lemma take_while_all (f : ascii -> bool) (s : string) :
  all_chars f (take_while f s) = true.
Proof.
  induction s as [|c s IH]; simpl; [reflexivity|].
  destruct (f c) eqn:E; simpl; [now rewrite E | reflexivity].
Qed.

Lemma drop_while_stops (f : ascii -> bool) (s : string) :
  match drop_while f s with
  | EmptyString => True
  | String c _ => f c = false
  end.
Proof.
  induction s as [|c s IH]; simpl; [exact I|].
  destruct (f c) eqn:E; [exact IH | exact E].
Qed.

(** A run of [f]-characters that ends the string, or is followed by a
    character outside [f], is what [take_while] returns. *)
Lemma take_while_run (f : ascii -> bool) (v rest : string) :
  all_chars f v = true ->
  match rest with
  | EmptyString => True
  | String c _ => f c = false
  end ->
  take_while f (v +:+ rest) = v.
Proof.
  intros Hv Hrest. induction v as [|c v IH].
  - rewrite app_nil_l. destruct rest as [|c r]; simpl; [reflexivity | now rewrite Hrest].
  - simpl in Hv. apply andb_true_iff in Hv as [Hc Hv].
    rewrite app_cons. simpl. rewrite Hc. f_equal. now apply IH.
Qed.

End StringFacts.

(** * The identifier extractor *)

Module ExtractFacts.
Import Js Eff YouTube StringFacts.

Lemma in_markers (m : string) :
  In m markers ->
  m = "youtube.com/watch?v=" \/ m = "youtu.be/" \/
  m = "youtube.com/embed/" \/ m = "youtube.com/v/".
Proof.
  unfold markers; simpl. intros [H|[H|[H|[H|[]]]]]; subst; auto.
Qed.

(** One alternative at the current position. *)
Lemma capture_after_iff (s m v : string) :
  capture_after s m = Some v <->
  exists rest, s = m +:+ v +:+ rest /\ v <> EmptyString /\
               all_chars id_char v = true /\ Spec.stops rest.
Proof.
  unfold capture_after. split.
  - destruct (strip_prefix m s) as [r|] eqn:E; [|discriminate].
    apply strip_prefix_inv in E. subst s.
    destruct (take_while id_char r) as [|c t] eqn:T; [discriminate|].
    intros [= <-]. exists (drop_while id_char r). repeat split.
    + now rewrite <- T, take_drop_while.
    + discriminate.
    + rewrite <- T. apply take_while_all.
    + pose proof (drop_while_stops id_char r) as D. unfold Spec.stops.
      destruct (drop_while id_char r); [exact I|].
      unfold id_char in D. now apply negb_false_iff in D.
  - intros (rest & -> & Hne & Hall & Hstop).
    rewrite strip_prefix_app, take_while_run; trivial.
    + destruct v; [contradiction | reflexivity].
    + unfold Spec.stops in Hstop. destruct rest; [exact I|].
      unfold id_char. now rewrite Hstop.
Qed.

(** The four markers exclude one another at one position. *)
Lemma capture_after_other (m m' x : string) :
  In m markers -> In m' markers -> m <> m' -> capture_after (m +:+ x) m' = None.
Proof.
  intros Hm Hm' Hne.
  apply in_markers in Hm as [->|[->|[->| ->]]];
    apply in_markers in Hm' as [->|[->|[->| ->]]];
    try contradiction; reflexivity.
Qed.

Lemma first_capture_iff (s v : string) :
  first_capture s markers = Some v <-> Spec.captures s v.
Proof.
  unfold Spec.captures. split.
  - unfold markers, first_capture.
    repeat match goal with
           | |- context [capture_after s ?m] =>
               let E := fresh "E" in
               destruct (capture_after s m) eqn:E;
               [ intros [= ->]; apply capture_after_iff in E as (rest & ? & ? & ? & ?);
                 exists m, rest; repeat split; simpl; auto 6 | ]
           end.
    discriminate.
  - intros (m & rest & Hm & Hs & Hne & Hall & Hstop).
    assert (Hc : capture_after s m = Some v)
      by (apply capture_after_iff; exists rest; auto).
    assert (Ho : forall m', In m' markers -> m <> m' -> capture_after s m' = None)
      by (intros m' Hm' Hd; rewrite Hs; now apply capture_after_other).
    pose proof Hm as Hm0.
    apply in_markers in Hm as [->|[->|[->| ->]]]; unfold markers, first_capture;
      repeat first
        [ rewrite Hc; reflexivity
        | rewrite Ho; [| simpl; auto 6 | discriminate] ].
Qed.

Lemma first_capture_none (s : string) :
  first_capture s markers = None <-> forall v, ~ Spec.captures s v.
Proof.
  split.
  - intros H v Hv. apply first_capture_iff in Hv. congruence.
  - intros H. destruct (first_capture s markers) as [v|] eqn:E; [|reflexivity].
    apply first_capture_iff in E. now apply H in E.
Qed.

Lemma match_url_unfold (s : string) :
  match_url s =
  match first_capture s markers with
  | Some v => Some v
  | None =>
      match s with
      | EmptyString => None
      | String _ s' => match_url s'
      end
  end.
Proof. destruct s; reflexivity. Qed.

Lemma match_url_none (url : string) :
  match_url url = None <-> Spec.no_capture url.
Proof.
  unfold Spec.no_capture. induction url as [|c url IH]; rewrite match_url_unfold.
  - split.
    + destruct (first_capture "" markers) eqn:E; [discriminate|].
      intros _ pre suf v Hs. destruct pre; [|discriminate].
      rewrite app_nil_l in Hs. subst suf. now apply first_capture_none.
    + intros H. destruct (first_capture "" markers) as [v|] eqn:E; [|reflexivity].
      apply first_capture_iff in E. now apply (H "" "" v) in E.
  - split.
    + destruct (first_capture (String c url) markers) eqn:E; [discriminate|].
      intros Hm pre suf v Hs. destruct pre as [|d pre].
      * rewrite app_nil_l in Hs. subst suf. now apply first_capture_none.
      * rewrite app_cons in Hs. injection Hs as _ Hs.
        apply (proj1 IH Hm pre suf v Hs).
    + intros H. destruct (first_capture (String c url) markers) as [v|] eqn:E.
      * apply first_capture_iff in E. now apply (H "" (String c url) v) in E.
      * apply IH. intros pre suf v Hs.
        apply (H (String c pre) suf v). now rewrite app_cons, Hs.
Qed.

Lemma match_url_some (url v : string) :
  match_url url = Some v <-> Spec.leftmost_capture url v.
Proof.
  unfold Spec.leftmost_capture. revert v.
  induction url as [|c url IH]; intros v; rewrite match_url_unfold.
  - split.
    + destruct (first_capture "" markers) as [v0|] eqn:E; [|discriminate].
      intros [= ->]. exists "", "". repeat split.
      * now apply first_capture_iff.
      * simpl. lia.
    + intros (pre & suf & Hs & Hc & _). destruct pre; [|discriminate].
      rewrite app_nil_l in Hs. subst suf.
      apply first_capture_iff in Hc. now rewrite Hc.
  - split.
    + destruct (first_capture (String c url) markers) as [v0|] eqn:E.
      * intros [= ->]. exists "", (String c url). repeat split.
        -- now apply first_capture_iff.
        -- simpl. lia.
      * intros Hm. apply IH in Hm as (pre & suf & Hs & Hc & Hleft).
        exists (String c pre), suf. repeat split.
        -- now rewrite app_cons, Hs.
        -- exact Hc.
        -- intros pre' suf' v' Hs' Hlen Hc'. destruct pre' as [|d pre'].
           ++ rewrite app_nil_l in Hs'. subst suf'.
              apply first_capture_iff in Hc'. congruence.
           ++ rewrite app_cons in Hs'. injection Hs' as _ Hs'.
              simpl in Hlen. apply (Hleft pre' suf' v' Hs'); [lia | exact Hc'].
    + intros (pre & suf & Hs & Hc & Hleft). destruct pre as [|d pre].
      * rewrite app_nil_l in Hs. subst suf.
        apply first_capture_iff in Hc. now rewrite Hc.
      * destruct (first_capture (String c url) markers) as [v0|] eqn:E.
        -- exfalso. apply first_capture_iff in E.
           apply (Hleft "" (String c url) v0); [reflexivity | simpl; lia | exact E].
        -- rewrite app_cons in Hs. injection Hs as _ Hs.
           apply IH. exists pre, suf. repeat split; trivial.
           intros pre' suf' v' Hs' Hlen.
           apply (Hleft (String c pre') suf' v').
           ++ now rewrite app_cons, Hs'.
           ++ simpl. lia.
Qed.

Lemma POST_no_id (rev : Revision) (h : Host) (url : string) (w : World) :
  extractVideoId url = None ->
  POST rev h (Some url) w =
  (Returns (json (ErrorBody (if String.eqb url "" then "No URL provided"
                             else "Invalid YouTube URL")) 400), w).
Proof.
  intros H. unfold POST, truthy. rewrite H.
  destruct (String.eqb url ""); reflexivity.
Qed.

End ExtractFacts.


(** * The text of the native path *)

Module NormalizeFacts.
Import Js StringFacts.

Lemma trimEnd_keep (c : ascii) (s : string) :
  is_space c = false -> trimEnd (String c s) = String c (trimEnd s).
Proof. intros H. simpl. rewrite H. now destruct (trimEnd s). Qed.

Lemma trimEnd_space (c : ascii) (s : string) :
  is_space c = true ->
  trimEnd (String c s) =
  match trimEnd s with
  | EmptyString => EmptyString
  | t => String c t
  end.
Proof. intros H. simpl. now rewrite H. Qed.

Lemma words_skip (c : ascii) (s : string) :
  is_space c = true -> Spec.words (String c s) = Spec.words s.
Proof. intros H. simpl. now rewrite H. Qed.

Lemma words_last (c : ascii) :
  is_space c = false -> Spec.words (String c "") = [String c ""].
Proof. intros H. simpl. now rewrite H. Qed.

Lemma words_end (c d : ascii) (s : string) :
  is_space c = false -> is_space d = true ->
  Spec.words (String c (String d s)) = String c "" :: Spec.words (String d s).
Proof. intros Hc Hd. cbn [Spec.words]. now rewrite Hc, Hd. Qed.

Lemma words_extend (c d : ascii) (s : string) :
  is_space c = false -> is_space d = false ->
  exists w ws, Spec.words (String d s) = w :: ws /\
               Spec.words (String c (String d s)) = String c w :: ws.
Proof.
  intros Hc Hd.
  assert (Hne : exists w ws, Spec.words (String d s) = w :: ws).
  { cbn [Spec.words]. rewrite Hd. destruct s as [|e s]; [eauto|].
    destruct (is_space e); [eauto|].
    destruct (Spec.words (String e s)); eauto. }
  destruct Hne as (w & ws & E). exists w, ws. split; [exact E|].
  change (Spec.words (String c (String d s)))
    with (if is_space c then Spec.words (String d s)
          else if is_space d then String c "" :: Spec.words (String d s)
               else match Spec.words (String d s) with
                    | w :: ws => String c w :: ws
                    | [] => [String c ""]
                    end).
  now rewrite Hc, Hd, E.
Qed.

(** No word is empty. *)
Lemma words_nonempty (s : string) : Forall (fun w => w <> "") (Spec.words s).
Proof.
  induction s as [|c s IH]; [constructor|].
  destruct (is_space c) eqn:Hc.
  - now rewrite words_skip.
  - destruct s as [|d s].
    + rewrite words_last by trivial. repeat constructor. discriminate.
    + destruct (is_space d) eqn:Hd.
      * rewrite words_end by trivial. constructor; [discriminate | exact IH].
      * destruct (words_extend c d s Hc Hd) as (w & ws & E & ->).
        rewrite E in IH. inversion IH; subst. constructor; [discriminate | trivial].
Qed.

Lemma join_cons_nonempty (w : string) (ws : list string) :
  w <> "" -> join " " (w :: ws) <> "".
Proof.
  intros Hw. destruct w as [|c w]; [contradiction|].
  destruct ws; simpl; [discriminate|]. rewrite app_cons. discriminate.
Qed.

Lemma join_extend (c : ascii) (w : string) (ws : list string) :
  join " " (String c w :: ws) = String c (join " " (w :: ws)).
Proof. destruct ws; reflexivity. Qed.

(** After a run of white space the replacement starts with a character
    that is not white space. *)
Lemma replace_ws_true_no_lead (s : string) :
  trimStart (replace_ws_from true s) = replace_ws_from true s.
Proof.
  unfold trimStart. induction s as [|c s IH]; simpl; [reflexivity|].
  destruct (is_space c) eqn:Hc; [exact IH|]. simpl. now rewrite Hc.
Qed.

Lemma trimStart_replace_ws (s : string) :
  trimStart (replace_ws s) = replace_ws_from true s.
Proof.
  unfold replace_ws. destruct s as [|c s]; [reflexivity|]. simpl.
  destruct (is_space c) eqn:Hc.
  - unfold trimStart. simpl. apply replace_ws_true_no_lead.
  - unfold trimStart. simpl. now rewrite Hc.
Qed.

Lemma trimEnd_replace_ws (s : string) :
  trimEnd (replace_ws_from true s) = join " " (Spec.words s).
Proof.
  induction s as [|c s IH]; [reflexivity|].
  destruct (is_space c) eqn:Hc.
  - rewrite words_skip by trivial. simpl. now rewrite Hc.
  - assert (E : replace_ws_from true (String c s)
                = String c (replace_ws_from false s))
      by (simpl; now rewrite Hc).
    rewrite E, trimEnd_keep by trivial. clear E.
    destruct s as [|d s].
    + now rewrite words_last.
    + destruct (is_space d) eqn:Hd.
      * rewrite words_end by trivial.
        assert (E : replace_ws_from false (String d s)
                    = String " " (replace_ws_from true (String d s)))
          by (simpl; now rewrite Hd).
        rewrite E, trimEnd_space, IH by reflexivity. clear E.
        pose proof (words_nonempty (String d s)) as Hne.
        destruct (Spec.words (String d s)) as [|w ws]; [reflexivity|].
        inversion Hne; subst.
        pose proof (join_cons_nonempty w ws H1) as Hj.
        destruct (join " " (w :: ws)) eqn:J; [contradiction|].
        change (join " " (String c "" :: w :: ws))
          with (String c "" +:+ " " +:+ join " " (w :: ws)).
        now rewrite J.
      * assert (E : replace_ws_from false (String d s)
                    = replace_ws_from true (String d s))
          by (simpl; now rewrite Hd).
        rewrite E, IH. clear E.
        destruct (words_extend c d s Hc Hd) as (w & ws & -> & ->).
        now rewrite join_extend.
Qed.

(** Collapsing the runs and trimming leaves the words, one space apart. *)
Lemma trim_replace_ws (s : string) :
  trim (replace_ws s) = join " " (Spec.words s).
Proof.
  unfold trim. now rewrite trimStart_replace_ws, trimEnd_replace_ws.
Qed.

(** The words of a text that is followed by white space, or by nothing. *)
Lemma words_app (a b : string) :
  match b with
  | EmptyString => True
  | String c _ => is_space c = true
  end ->
  Spec.words (a +:+ b) = Spec.words a ++ Spec.words b.
Proof.
  intros Hb. induction a as [|c a IH]; [reflexivity|].
  rewrite app_cons. destruct (is_space c) eqn:Hc.
  - now rewrite !words_skip.
  - destruct a as [|d a].
    + rewrite app_nil_l, words_last by trivial.
      destruct b as [|e b]; [now rewrite words_last|].
      now rewrite words_end.
    + rewrite app_cons in *. destruct (is_space d) eqn:Hd.
      * rewrite !words_end by trivial. now rewrite IH.
      * destruct (words_extend c d (a +:+ b) Hc Hd) as (w & ws & E & ->).
        destruct (words_extend c d a Hc Hd) as (w' & ws' & E' & ->).
        rewrite IH, E' in E. now injection E as <- <-.
Qed.

Lemma words_join (parts : list string) :
  Spec.words (join " " parts) = flat_map Spec.words parts.
Proof.
  induction parts as [|p parts IH]; [reflexivity|].
  destruct parts as [|q parts].
  - simpl. now rewrite List.app_nil_r.
  - change (join " " (p :: q :: parts)) with (p +:+ " " +:+ join " " (q :: parts)).
    rewrite words_app by reflexivity.
    change (" " +:+ join " " (q :: parts)) with (String " " (join " " (q :: parts))).
    rewrite words_skip by reflexivity. now rewrite IH.
Qed.

End NormalizeFacts.

(** * How a request runs through the resolver *)

Module ResolverFacts.
Import Js Eff YouTube StringFacts ExtractFacts.

(** Unfolds the combinators of a handler down to matches on the oracles. *)
Ltac run :=
  cbv beta iota zeta delta
    [bind ret throw try_catch try_or_return try_finally log of_result
     getVideoInfo downloadAudio existsSync unlinkSync which_yt_dlp Spec.after
     json];
  cbn [files calls fst snd].

(** Splits on one scrutinee that contains no other match. *)
Ltac split_scrutinee :=
  match goal with
  | |- context [match ?x with _ => _ end] =>
      lazymatch x with
      | context [match _ with _ => _ end] => fail
      | _ => let E := fresh "E" in destruct x eqn:E
      end
  end; cbn [files calls fst snd].

(** The calls made so far are the earlier ones followed by the new ones. *)
Ltac close_calls := first [reflexivity | symmetry; apply List.app_nil_r].

Lemma match_url_nonempty (url v : string) :
  match_url url = Some v -> v <> EmptyString.
Proof.
  intros H. apply match_url_some in H as (pre & suf & _ & Hc & _).
  now destruct Hc as (m & rest & _ & _ & Hne & _).
Qed.

(** The extractor never returns the empty string, so the test [!videoId]
    of [POST] fails exactly when nothing matched. *)
Lemma extractVideoId_nonempty (url v : string) :
  extractVideoId url = Some v -> String.eqb v "" = false.
Proof.
  unfold extractVideoId, match_bare. intros H. apply String.eqb_neq.
  destruct (match_url url) as [v0|] eqn:E.
  - injection H as <-. now apply match_url_nonempty in E.
  - destruct (Nat.eqb (String.length url) 11) eqn:L; simpl in H; [|discriminate].
    destruct (all_chars bare_char url); [|discriminate].
    injection H as <-. intros ->. discriminate.
Qed.

Lemma nativeStep_run (h : Host) (videoId t : string) (w : World) :
  nativeStep h videoId t w =
  (match Spec.native_text h videoId with
   | Some text => Returns (json (TranscriptBody text t false) 200)
   | None =>
       match fetchTranscript h videoId with
       | inl e => Throws e
       | inr _ => Throws (new_Error "Native transcript unavailable or too short")
       end
   end,
   Spec.after w [CallFetchTranscript videoId]).
Proof.
  unfold nativeStep, Spec.native_text. run.
  destruct (fetchTranscript h videoId) as [e|[[|i l]|]]; try reflexivity.
  destruct (Nat.leb 50 (String.length (nativeTranscript (i :: l)))); reflexivity.
Qed.

(** The two steps of [POST] for a usable locator. *)
Lemma POST_run (rev : Revision) (h : Host) (u videoId : string) (w : World) :
  u <> EmptyString -> extractVideoId u = Some videoId ->
  POST rev h (Some u) w =
  match Spec.native_text h videoId with
  | Some text =>
      (Returns (json (TranscriptBody text ("YouTube Video " +:+ videoId) false) 200),
       Spec.after w [CallFetchTranscript videoId])
  | None => fallback rev h u (Spec.after w [CallFetchTranscript videoId])
  end.
Proof.
  intros Hu Hid. unfold POST, truthy. rewrite Hid.
  apply String.eqb_neq in Hu. rewrite Hu.
  rewrite (extractVideoId_nonempty _ _ Hid).
  change (negb (negb false)) with false. cbv iota.
  unfold try_catch. rewrite nativeStep_run.
  destruct (Spec.native_text h videoId); [reflexivity|].
  now destruct (fetchTranscript h videoId).
Qed.

(** Without a usable locator no step runs. *)
Lemma POST_bad_input (rev : Revision) (h : Host) (url : option string) (w : World) :
  (truthy url = false \/ exists u, url = Some u /\ extractVideoId u = None) ->
  exists msg, POST rev h url w = (Returns (json (ErrorBody msg) 400), w).
Proof.
  intros [H|(u & -> & H)].
  - destruct url as [u|]; [|eexists; reflexivity].
    unfold POST. rewrite H. eexists; reflexivity.
  - exists (if String.eqb u "" then "No URL provided" else "Invalid YouTube URL").
    now apply POST_no_id.
Qed.

Lemma validateOpenAIKey_ok (key : option string) (w : World) :
  Spec.malformed_credential key = false ->
  validateOpenAIKey key w = (Returns tt, w).
Proof.
  unfold Spec.malformed_credential, validateOpenAIKey, truthy.
  destruct key as [k|]; [|discriminate]. intros H.
  apply orb_false_iff in H as [H H3]. apply orb_false_iff in H as [H1 H2].
  apply negb_false_iff in H2. now rewrite H1, H2, H3.
Qed.

Lemma validateOpenAIKey_throws (key : option string) (w : World) :
  Spec.malformed_credential key = true ->
  exists msg,
    validateOpenAIKey key w = (Throws (new_Error msg), w) /\
    includes msg "OPENAI_API_KEY" = true.
Proof.
  unfold Spec.malformed_credential, validateOpenAIKey, truthy.
  destruct key as [k|]; [|intros _; eexists; split; reflexivity].
  destruct (String.eqb k ""); simpl negb; cbv iota.
  { intros _; eexists; split; reflexivity. }
  destruct (startsWith k "sk-"); simpl negb; cbv iota.
  2:{ intros _; eexists; split; reflexivity. }
  simpl. intros ->. eexists; split; reflexivity.
Qed.

(** What [transcribeWithWhisper] does to the outside: whenever it asks for
    the download, the output file is [tempFile] and it is gone at the end,
    whatever the download and the transcription request did; and what it
    returns is the output of the transcription request with the title of
    the metadata. *)
Lemma transcribeWithWhisper_effect (rev : Revision) (h : Host) (u : string) (w : World) :
  exists made,
    calls (snd (transcribeWithWhisper rev h u w)) = calls w ++ made /\
    (forall videoUrl outputPath,
        In (CallDownload videoUrl outputPath) made ->
        outputPath = tempFile h /\
        tempFile h ∉ files (snd (transcribeWithWhisper rev h u w))) /\
    (forall r, fst (transcribeWithWhisper rev h u w) = Returns r ->
        transcriptions_create h (tempFile h) = inr (wr_transcript r) /\
        exists info, dump_json h u = inr info /\ wr_title r = title info).
Proof.
  destruct w as [fs cs]. unfold transcribeWithWhisper, validateOpenAIKey. run.
  repeat split_scrutinee;
    rewrite <- ?List.app_assoc; eexists; (split; [close_calls|]); split;
    try (intros r [= <-]; cbn; eauto);
    try (intros r [=]).
  all: intros videoUrl outputPath Hin; cbn in Hin;
    repeat match type of Hin with
           | _ \/ _ => destruct Hin as [Hin|Hin]
           | False => contradiction
           | _ = _ => first [discriminate Hin | injection Hin as <- <-]
           end.
  all: split; [reflexivity|].
  all: try (apply not_elem_of_difference; right; now apply elem_of_singleton).
  all: match goal with
       | H : bool_decide _ = false |- _ => now apply bool_decide_eq_false in H
       end.
Qed.

Lemma whisperStep_effect (rev : Revision) (h : Host) (u : string) (w : World) :
  exists made,
    calls (snd (whisperStep rev h u w)) = calls w ++ made /\
    (forall videoUrl outputPath,
        In (CallDownload videoUrl outputPath) made ->
        outputPath = tempFile h /\
        tempFile h ∉ files (snd (whisperStep rev h u w))) /\
    (forall r, fst (whisperStep rev h u w) = Returns r ->
        exists info t,
          dump_json h u = inr info /\
          transcriptions_create h (tempFile h) = inr t /\
          50 <= String.length t /\
          r = json (TranscriptBody t (title info) true) 200).
Proof.
  destruct (transcribeWithWhisper_effect rev h u w) as (made & Hc & Hd & Hr).
  exists made. unfold whisperStep, bind.
  destruct (transcribeWithWhisper rev h u w) as [[r|e] w'] eqn:E;
    cbn [fst snd] in *.
  - destruct (Hr r eq_refl) as (Ht & info & Hi & Hti).
    unfold truthy.
    destruct (String.eqb (wr_transcript r) "") eqn:E1; cbn [negb orb].
    { unfold throw; cbn [fst snd]. split; [exact Hc|]. split; [exact Hd|].
      intros ? [=]. }
    destruct (Nat.ltb (String.length (wr_transcript r)) 50) eqn:E2;
      unfold throw, ret; cbn [fst snd]; (split; [exact Hc|]);
      (split; [exact Hd|]).
    + intros ? [=].
    + intros r0 [= <-]. exists info, (wr_transcript r).
      apply Nat.ltb_ge in E2. rewrite Hti. auto.
  - split; [exact Hc|]. split; [exact Hd|]. intros ? [=].
Qed.

(** The configuration checks of the fallback, in the order of the code. *)
Lemma fallback_no_key (rev : Revision) (h : Host) (u : string) (w : World) :
  truthy (OPENAI_API_KEY h) = false ->
  fallback rev h u w = (Returns (json (ErrorBody (missing_key_message rev)) 500), w).
Proof. intros H. unfold fallback. now rewrite H. Qed.

Lemma fallback_bad_key (h : Host) (u : string) (w : World) :
  truthy (OPENAI_API_KEY h) = true ->
  Spec.malformed_credential (OPENAI_API_KEY h) = true ->
  exists msg,
    fallback Later h u w = (Returns (json (ErrorBody msg) 500), w) /\
    includes msg "OPENAI_API_KEY" = true.
Proof.
  intros Hk Hm. unfold fallback, try_or_return. rewrite Hk. cbn [negb].
  destruct (validateOpenAIKey_throws _ w Hm) as (msg & -> & Hmsg).
  exists msg. split; [reflexivity | exact Hmsg].
Qed.

(** Past the configuration checks the answer is that of the fallback
    itself, or the handler's translation of what it threw. *)
Lemma fallback_attempt (rev : Revision) (h : Host) (u : string) (w : World) :
  truthy (OPENAI_API_KEY h) = true ->
  (rev = Earlier \/ Spec.malformed_credential (OPENAI_API_KEY h) = false) ->
  fallback rev h u w =
  if yt_dlp_installed h then
    match whisperStep rev h u (Spec.after w [CallWhich]) with
    | (Returns r, w') => (Returns r, w')
    | (Throws e, w') => (Returns (whisperFailure rev e), w')
    end
  else (Returns (json (ErrorBody missing_yt_dlp_message) 500),
        Spec.after w [CallWhich]).
Proof.
  intros Hk Hm. unfold fallback, try_or_return. rewrite Hk. cbn [negb].
  assert (Hv : match rev with
               | Later => validateOpenAIKey (OPENAI_API_KEY h)
               | Earlier => ret tt
               end w = (Returns tt, w)).
  { destruct rev; [reflexivity|]. destruct Hm as [|Hm]; [discriminate|].
    now apply validateOpenAIKey_ok. }
  rewrite Hv. unfold which_yt_dlp. run.
  destruct (yt_dlp_installed h); reflexivity.
Qed.

Lemma truthy_cases (url : option string) :
  truthy url = false \/ exists u, url = Some u /\ u <> EmptyString.
Proof.
  destruct url as [u|]; [|now left]. unfold truthy.
  destruct (String.eqb u "") eqn:E; [now left|].
  right. exists u. split; [reflexivity|]. now apply String.eqb_neq.
Qed.

(** Every request whose locator is a string or absent is answered, in one
    of the ways of [Spec.Exit]: past its first line the handler does not
    throw. *)
Lemma POST_exits (rev : Revision) (h : Host) (url : option string) (w : World) :
  exists resp w',
    POST rev h url w = (Returns resp, w') /\ Spec.Exit rev h url w resp w'.
Proof.
  destruct (truthy_cases url) as [Hu|(u & -> & Hu)].
  { destruct (POST_bad_input rev h url w (or_introl Hu)) as (msg & ->).
    eexists _, _. split; [reflexivity|]. constructor. now left. }
  destruct (extractVideoId u) as [videoId|] eqn:Hid.
  2:{ assert (Hb : Spec.bad_input (Some u)) by (right; eauto).
      destruct (POST_bad_input rev h (Some u) w Hb) as (msg & ->).
      eexists _, _. split; [reflexivity|]. now constructor. }
  rewrite (POST_run rev h u videoId w Hu Hid).
  destruct (Spec.native_text h videoId) as [t|] eqn:Hn.
  { eexists _, _. split; [reflexivity|]. now apply Spec.ExitNative with (u := u). }
  destruct (truthy (OPENAI_API_KEY h)) eqn:Hk.
  2:{ rewrite fallback_no_key by exact Hk. eexists _, _. split; [reflexivity|].
      now apply Spec.ExitNoCredential with (u := u). }
  assert (Hcase : (rev = Later /\
                   Spec.malformed_credential (OPENAI_API_KEY h) = true) \/
                  (rev = Earlier \/
                   Spec.malformed_credential (OPENAI_API_KEY h) = false)).
  { destruct rev; [now right; left|].
    destruct (Spec.malformed_credential (OPENAI_API_KEY h)); auto. }
  destruct Hcase as [[-> Hm]|Hm].
  { destruct (fallback_bad_key h u (Spec.after w [CallFetchTranscript videoId])
                Hk Hm) as (msg & -> & Hmsg).
    eexists _, _. split; [reflexivity|].
    now apply Spec.ExitMalformedCredential with (u := u). }
  rewrite (fallback_attempt rev h u _ Hk Hm).
  destruct (yt_dlp_installed h) eqn:Hy.
  2:{ eexists _, _. split; [reflexivity|].
      now apply Spec.ExitNoUtility with (u := u). }
  fold (Spec.at_fallback w videoId).
  destruct (whisperStep_effect rev h u (Spec.at_fallback w videoId))
    as (made & _ & _ & Hr).
  destruct (whisperStep rev h u (Spec.at_fallback w videoId)) as [[r|e] w'] eqn:E;
    cbn [fst] in Hr.
  - destruct (Hr r eq_refl) as (info & t & Hi & Ht & Hlen & ->).
    eexists _, _. split; [reflexivity|].
    apply Spec.ExitTranscribed with (u := u) (videoId := videoId); trivial.
    now rewrite E.
  - eexists _, _. split; [reflexivity|].
    now apply Spec.ExitFallbackFailed with (u := u) (videoId := videoId).
Qed.

(** The fallback succeeds when every oracle on its way does. *)
Lemma whisperStep_success (rev : Revision) (h : Host) (u : string) (w : World)
    (info : VideoInfo) (t : string) :
  (rev = Earlier \/ Spec.malformed_credential (OPENAI_API_KEY h) = false) ->
  dump_json h u = inr info ->
  fst (download h u (tempFile h) (files w)) = None ->
  transcriptions_create h (tempFile h) = inr t ->
  50 <= String.length t ->
  fst (whisperStep rev h u w) = Returns (json (TranscriptBody t (title info) true) 200).
Proof.
  intros Hm Hi Hd Ht Hlen. destruct w as [fs cs]. cbn [files] in Hd.
  assert (Hv : forall w0, match rev with
                          | Later => validateOpenAIKey (OPENAI_API_KEY h)
                          | Earlier => ret tt
                          end w0 = (Returns tt, w0)).
  { intros w0. destruct rev; [reflexivity|]. destruct Hm as [|Hm]; [discriminate|].
    now apply validateOpenAIKey_ok. }
  assert (Hne : String.eqb t "" = false).
  { apply String.eqb_neq. intros ->. simpl in Hlen. lia. }
  assert (Hlt : Nat.ltb (String.length t) 50 = false) by (apply Nat.ltb_ge; lia).
  unfold whisperStep, transcribeWithWhisper.
  unfold bind at 1 2. rewrite Hv. run. rewrite Hi. run.
  destruct (download h u (tempFile h) fs) as [o fs'].
  cbn [fst] in Hd. subst o. run. rewrite Ht. run.
  destruct (bool_decide (tempFile h ∈ fs')); run;
    cbn [wr_transcript wr_title]; unfold truthy; now rewrite Hne, Hlt.
Qed.

Lemma whisperFailure_error (rev : Revision) (e : Thrown) :
  exists msg, body (whisperFailure rev e) = ErrorBody msg.
Proof.
  unfold whisperFailure.
  destruct rev, (is_Error e); cbn [json body]; eauto.
  destruct (auth_like e); [eauto|].
  destruct (rate_like e); [eauto|].
  destruct (includes (e_message e) "OPENAI_API_KEY is not set"); eauto.
Qed.

Lemma whisperFailure_status_earlier (e : Thrown) :
  status (whisperFailure Earlier e) = 500%Z.
Proof. reflexivity. Qed.

Lemma whisperFailure_status_later (e : Thrown) :
  status (whisperFailure Later e) =
  if is_Error e && auth_like e then 401%Z
  else if is_Error e && rate_like e then 429%Z
  else 500%Z.
Proof.
  unfold whisperFailure.
  destruct (is_Error e); cbn [andb]; [|reflexivity].
  destruct (auth_like e); [reflexivity|].
  destruct (rate_like e); [reflexivity|].
  now destruct (includes (e_message e) "OPENAI_API_KEY is not set").
Qed.

(** An error payload never has a status of the 2xx class. *)
Lemma error_answer_status (rev : Revision) (h : Host) (url : option string)
    (w w' : World) (resp : Response) (msg : string) :
  Spec.Exit rev h url w resp w' -> body resp = ErrorBody msg ->
  status resp = 400%Z \/ status resp = 401%Z \/
  status resp = 429%Z \/ status resp = 500%Z.
Proof.
  intros Hexit Hb. inversion Hexit; subst; cbn [json status body] in *;
    try discriminate; auto.
  destruct rev.
  - rewrite whisperFailure_status_earlier. auto.
  - rewrite whisperFailure_status_later.
    destruct (is_Error e && auth_like e); [auto|].
    destruct (is_Error e && rate_like e); auto.
Qed.

End ResolverFacts.

(** * The transcript resolver *)

Module Resolver.
Import Js Eff YouTube StringFacts ExtractFacts NormalizeFacts ResolverFacts.

Lemma bare_char_id_char (c : ascii) : bare_char c = true -> id_char c = true.
Proof.
  destruct c as [[] [] [] [] [] [] [] []]; vm_compute; congruence.
Qed.

Lemma all_bare_all_id (s : string) :
  all_chars bare_char s = true -> all_chars id_char s = true.
Proof.
  induction s as [|c s IH]; simpl; [trivial|].
  intros H. apply andb_true_iff in H as [Hc Hs].
  now rewrite (bare_char_id_char c Hc), IH.
Qed.

(** An 11-character identifier is a non-empty run that the group accepts. *)
Lemma video_id_run (ID : string) :
  Spec.video_id ID = true -> ID <> EmptyString /\ all_chars id_char ID = true.
Proof.
  unfold Spec.video_id. intros H. apply andb_true_iff in H as [Hl Ha]. split.
  - intros ->. discriminate.
  - now apply all_bare_all_id.
Qed.

Lemma marker_starts_with_y (m x : string) :
  In m markers -> exists t, m +:+ x = String "y" t.
Proof.
  intros Hm. apply in_markers in Hm as [->|[->|[->| ->]]]; eexists; reflexivity.
Qed.

Lemma inside_prefix (pre x pre' suf' : string) :
  Spec.no_marker_start pre = true ->
  pre +:+ x = pre' +:+ suf' ->
  String.length pre' < String.length pre ->
  exists c t, suf' = String c t /\ Ascii.eqb c "y" = false.
Proof.
  unfold Spec.no_marker_start. revert pre'.
  induction pre as [|c pre IH]; intros pre' Hy Hs Hlen; simpl in *; [lia|].
  apply andb_true_iff in Hy as [Hc Hy]. rewrite app_cons in Hs.
  destruct pre' as [|d pre'].
  - rewrite app_nil_l in Hs. subst suf'. exists c, (pre +:+ x). split; [reflexivity|].
    now apply negb_true_iff.
  - rewrite app_cons in Hs. injection Hs as _ Hs. simpl in Hlen.
    apply (IH pre' Hy Hs). lia.
Qed.

Lemma leftmost_after_prefix (pre m v rest : string) :
  In m markers -> v <> EmptyString -> all_chars id_char v = true ->
  Spec.no_marker_start pre = true -> Spec.stops rest ->
  Spec.leftmost_capture (pre +:+ m +:+ v +:+ rest) v.
Proof.
  intros Hm Hne Hall Hy Hstop. exists pre, (m +:+ v +:+ rest). repeat split.
  - exists m, rest. auto.
  - intros pre' suf' v' Hs Hlen (m' & rest' & Hm' & Hs' & _).
    destruct (inside_prefix _ _ _ _ Hy Hs Hlen) as (c & t & -> & Hc).
    destruct (marker_starts_with_y m' (v' +:+ rest') Hm') as (t' & Ht').
    rewrite Ht' in Hs'. injection Hs' as -> _. discriminate.
Qed.

(** C1, as the code has it.  The URL pattern captures the longest run of
    characters other than [&], line feed, [?] and [#] after the leftmost
    marker that is followed by such a character, whatever the length of the
    run; so a marker followed by an identifier (of 11 characters or not)
    that stops at the end of the input or before one of those four
    characters yields that identifier, an identifier of 11 characters
    among [a-zA-Z0-9_-] in particular.  Without any capture, an input of
    exactly 11 characters among [a-zA-Z0-9_-] is returned as it is.  Every
    input is in one of these cases or yields no identifier, and then the
    resolver answers with status 400 and makes no outside call. *)
Theorem extractVideoId_leftmost_capture :
  (forall url v, Spec.leftmost_capture url v -> extractVideoId url = Some v) /\
  (forall pre m ID rest,
      In m markers -> ID <> EmptyString -> all_chars id_char ID = true ->
      Spec.no_marker_start pre = true -> Spec.stops rest ->
      extractVideoId (pre +:+ m +:+ ID +:+ rest) = Some ID) /\
  (forall pre m ID rest,
      In m markers -> Spec.video_id ID = true ->
      Spec.no_marker_start pre = true -> Spec.stops rest ->
      extractVideoId (pre +:+ m +:+ ID +:+ rest) = Some ID) /\
  (forall url, Spec.no_capture url ->
      extractVideoId url = if Spec.video_id url then Some url else None) /\
  (forall url, (exists v, Spec.leftmost_capture url v) \/ Spec.no_capture url) /\
  (forall rev h url w, extractVideoId url = None ->
      POST rev h (Some url) w =
      (Returns (json (ErrorBody (if String.eqb url "" then "No URL provided"
                                 else "Invalid YouTube URL")) 400), w)).
Proof.
  assert (H1 : forall url v,
             Spec.leftmost_capture url v -> extractVideoId url = Some v).
  { intros url v H. apply match_url_some in H. unfold extractVideoId. now rewrite H. }
  repeat split.
  - exact H1.
  - intros. apply H1. now apply leftmost_after_prefix.
  - intros pre m ID rest Hm Hid Hy Hstop.
    destruct (video_id_run ID Hid) as [Hne Hall].
    apply H1. now apply leftmost_after_prefix.
  - intros url H. apply match_url_none in H. unfold extractVideoId. now rewrite H.
  - intros url. destruct (match_url url) as [v|] eqn:E.
    + left. exists v. now apply match_url_some.
    + right. now apply match_url_none.
  - intros. now apply POST_no_id.
Qed.

(** The claim as the spec words it fails: a short link whose identifier
    has three characters has none of the supported shapes, and yet the
    extractor returns an identifier for it, so that the resolver goes on to
    ask for its captions instead of answering 400. *)
Lemma extractVideoId_short_id_accepted :
  Spec.supported_shape "https://youtu.be/abc" = false /\
  extractVideoId "https://youtu.be/abc" = Some "abc" /\
  String.length "abc" <> 11 /\
  calls (snd (POST Later (Demo.host None (inl Demo.no_captions) false
                            (inl Demo.no_captions) None (inl Demo.no_captions))
                (Some "https://youtu.be/abc") Demo.start))
  = [CallFetchTranscript "abc"].
Proof.
  repeat split; try reflexivity. simpl. lia.
Qed.

(** The watch URL of the spec's end-to-end scenario, with a query
    parameter after the identifier. *)
Lemma extractVideoId_watch_url :
  (In "youtube.com/watch?v=" markers /\
   "abc12345678" <> EmptyString /\
   all_chars id_char "abc12345678" = true /\
   Spec.no_marker_start "https://www." = true /\
   Spec.stops "&t=10") /\
  extractVideoId "https://www.youtube.com/watch?v=abc12345678&t=10"
  = Some "abc12345678".
Proof.
  assert (H : In "youtube.com/watch?v=" markers /\
              "abc12345678" <> EmptyString /\
              all_chars id_char "abc12345678" = true /\
              Spec.no_marker_start "https://www." = true /\
              Spec.stops "&t=10").
  { repeat split; try reflexivity; [simpl; auto | discriminate]. }
  split; [exact H|].
  destruct H as (Hm & Hne & Hall & Hy & Hstop).
  exact (proj1 (proj2 extractVideoId_leftmost_capture)
           "https://www." "youtube.com/watch?v=" "abc12345678" "&t=10"
           Hm Hne Hall Hy Hstop).
Defined.

(** C2.  The text of the native path is the words of the caption fragments
    in their order, one space apart: the fragments joined by spaces, every
    run of white space collapsed to one space, and the ends trimmed.  When
    the captions library returns a non-empty list whose text has 50
    characters or more, the resolver answers with that text and
    [usedWhisper = false].  The fragments [Hello] and [world] give the text
    [Hello world]. *)
Theorem native_captions_joined :
  (forall items,
      nativeTranscript items = Spec.joined_captions (map text items)) /\
  (forall rev h u videoId w i l,
      u <> EmptyString -> extractVideoId u = Some videoId ->
      fetchTranscript h videoId = inr (Some (i :: l)) ->
      50 <= String.length (nativeTranscript (i :: l)) ->
      POST rev h (Some u) w =
      (Returns (json (TranscriptBody (nativeTranscript (i :: l))
                        ("YouTube Video " +:+ videoId) false) 200),
       Spec.after w [CallFetchTranscript videoId])) /\
  nativeTranscript [ {| text := "Hello" |}; {| text := "world" |} ] = "Hello world".
Proof.
  split; [|split].
  - intros items. unfold nativeTranscript, Spec.joined_captions.
    now rewrite trim_replace_ws, words_join.
  - intros rev h u videoId w i l Hu Hid Hf Hlen.
    rewrite (POST_run rev h u videoId w Hu Hid).
    unfold Spec.native_text. rewrite Hf. cbv zeta.
    apply Nat.leb_le in Hlen. now rewrite Hlen.
  - reflexivity.
Qed.

(** A caption of 70 characters, split over two fragments with stray white
    space, comes back joined and with the native flag. *)
Lemma native_captions_joined_example :
  ("https://www.youtube.com/watch?v=abc12345678" <> EmptyString /\
   extractVideoId "https://www.youtube.com/watch?v=abc12345678" = Some "abc12345678" /\
   50 <= String.length
           (nativeTranscript [ {| text := "  This caption is long enough  " |};
                               {| text := "to pass the threshold of fifty characters." |} ])) /\
  POST Later
    (Demo.host None
       (inr (Some [ {| text := "  This caption is long enough  " |};
                    {| text := "to pass the threshold of fifty characters." |} ]))
       false (inl Demo.no_captions) None (inl Demo.no_captions))
    (Some "https://www.youtube.com/watch?v=abc12345678") Demo.start
  = (Returns (json (TranscriptBody Demo.long_caption
                      "YouTube Video abc12345678" false) 200),
     Spec.after Demo.start [CallFetchTranscript "abc12345678"]).
Proof.
  assert (H : "https://www.youtube.com/watch?v=abc12345678" <> EmptyString /\
              extractVideoId "https://www.youtube.com/watch?v=abc12345678"
              = Some "abc12345678" /\
              50 <= String.length
                      (nativeTranscript
                         [ {| text := "  This caption is long enough  " |};
                           {| text := "to pass the threshold of fifty characters." |} ])).
  { split; [discriminate|]. split; [reflexivity|]. vm_compute. lia. }
  split; [exact H|]. destruct H as (Hu & Hid & Hlen).
  exact (proj1 (proj2 native_captions_joined) Later
           (Demo.host None
              (inr (Some [ {| text := "  This caption is long enough  " |};
                           {| text := "to pass the threshold of fifty characters." |} ]))
              false (inl Demo.no_captions) None (inl Demo.no_captions))
           "https://www.youtube.com/watch?v=abc12345678" "abc12345678" Demo.start
           {| text := "  This caption is long enough  " |}
           [ {| text := "to pass the threshold of fifty characters." |} ]
           Hu Hid eq_refl Hlen).
Defined.

(** The text [Hello world] itself has 11 characters, under the threshold:
    for these two fragments the resolver goes on to the fallback, here to
    its first configuration check. *)
Example hello_world_below_threshold :
  Spec.native_text
    (Demo.host None (inr (Some [ {| text := "Hello" |}; {| text := "world" |} ]))
       false (inl Demo.no_captions) None (inl Demo.no_captions))
    "abc12345678" = None /\
  fst (POST Later
         (Demo.host None (inr (Some [ {| text := "Hello" |}; {| text := "world" |} ]))
            false (inl Demo.no_captions) None (inl Demo.no_captions))
         (Some Demo.watch_url) Demo.start)
  = Returns (json (ErrorBody (missing_key_message Later)) 500).
Proof. split; reflexivity. Qed.

(** C3, as the code has it.  An answer of the native path
    ([usedWhisper = false]) carries the title
    ["YouTube Video " + identifier], whatever the video is called. *)
Theorem native_title_placeholder (rev : Revision) (h : Host)
    (url : option string) (w : World) (content t : string) (st : Z) :
  fst (POST rev h url w)
  = Returns {| body := TranscriptBody content t false; status := st |} ->
  exists u videoId,
    url = Some u /\ extractVideoId u = Some videoId /\
    Spec.native_text h videoId = Some content /\
    t = "YouTube Video " +:+ videoId.
Proof.
  destruct (POST_exits rev h url w) as (resp & w' & -> & Hexit).
  cbn [fst]. intros [= ->]. inversion Hexit; subst; try discriminate.
  - eauto 6.
  - destruct (whisperFailure_error rev e) as (msg & Hmsg).
    match goal with H : whisperFailure _ _ = _ |- _ => rewrite H in Hmsg end.
    discriminate.
Qed.

(** The claim as the spec words it fails: in the spec's own scenario the
    title is not ["Video abc12345678"]. *)
Lemma native_title_is_not_video_id :
  fst (POST Later (Demo.native_host Demo.long_caption) (Some Demo.watch_url)
         Demo.start)
  = Returns (json (TranscriptBody Demo.long_caption "YouTube Video abc12345678"
                     false) 200) /\
  "YouTube Video abc12345678" <> "Video " +:+ "abc12345678".
Proof. split; [reflexivity | discriminate]. Qed.

Lemma native_title_placeholder_example :
  fst (POST Later (Demo.native_host Demo.long_caption) (Some Demo.watch_url)
         Demo.start)
  = Returns {| body := TranscriptBody Demo.long_caption
                         "YouTube Video abc12345678" false;
               status := 200 |} /\
  exists u videoId,
    Some Demo.watch_url = Some u /\ extractVideoId u = Some videoId /\
    Spec.native_text (Demo.native_host Demo.long_caption) videoId
    = Some Demo.long_caption /\
    "YouTube Video abc12345678" = "YouTube Video " +:+ videoId.
Proof.
  split; [reflexivity|].
  exact (native_title_placeholder Later (Demo.native_host Demo.long_caption)
           (Some Demo.watch_url) Demo.start Demo.long_caption
           "YouTube Video abc12345678" 200 eq_refl).
Defined.

(** C4.  Whenever [transcribeWithWhisper] has asked for the download of the
    audio, and so whenever [POST] has, the output file was the temporary
    file, and that file does not exist when the function returns: whether
    it returns a transcript, throws what the download or the transcription
    request threw, or the transcript turns out too short. *)
Theorem temp_file_removed :
  (forall rev h u w,
      exists made,
        calls (snd (transcribeWithWhisper rev h u w)) = calls w ++ made /\
        forall videoUrl outputPath,
          In (CallDownload videoUrl outputPath) made ->
          outputPath = tempFile h /\
          tempFile h ∉ files (snd (transcribeWithWhisper rev h u w))) /\
  (forall rev h url w,
      exists made,
        calls (snd (POST rev h url w)) = calls w ++ made /\
        forall videoUrl outputPath,
          In (CallDownload videoUrl outputPath) made ->
          outputPath = tempFile h /\
          tempFile h ∉ files (snd (POST rev h url w))).
Proof.
  split.
  - intros rev h u w.
    destruct (transcribeWithWhisper_effect rev h u w) as (made & Hc & Hd & _).
    eauto.
  - intros rev h url w.
    destruct (POST_exits rev h url w) as (resp & w' & -> & Hexit). cbn [snd].
    assert (Hstep : forall u videoId,
               snd (whisperStep rev h u (Spec.at_fallback w videoId)) = w' ->
               exists made,
                 calls w' = calls w ++ made /\
                 forall videoUrl outputPath,
                   In (CallDownload videoUrl outputPath) made ->
                   outputPath = tempFile h /\ tempFile h ∉ files w').
    { intros u videoId <-.
      destruct (whisperStep_effect rev h u (Spec.at_fallback w videoId))
        as (made & Hc & Hd & _).
      exists ([CallFetchTranscript videoId; CallWhich] ++ made). split.
      - rewrite Hc. unfold Spec.at_fallback, Spec.after. cbn [calls].
        now rewrite <- !List.app_assoc.
      - intros videoUrl outputPath Hin.
        apply in_app_or in Hin as [Hin|Hin]; [|now apply (Hd videoUrl)].
        cbn in Hin. destruct Hin as [Hin|[Hin|[]]]; discriminate. }
    inversion Hexit; subst;
      try (match goal with
           | H : whisperStep _ _ ?u (Spec.at_fallback _ ?v) = (_, ?w1) |- _ =>
               apply (Hstep u v); now rewrite H
           | |- context [whisperStep _ _ ?u (Spec.at_fallback _ ?v)] =>
               apply (Hstep u v); reflexivity
           end).
    + exists []. split; [now rewrite List.app_nil_r | intros ? ? []].
    + exists [CallFetchTranscript videoId]. split; [reflexivity|].
      intros ? ? [Hin|[]]; discriminate.
    + exists [CallFetchTranscript videoId]. split; [reflexivity|].
      intros ? ? [Hin|[]]; discriminate.
    + exists [CallFetchTranscript videoId]. split; [reflexivity|].
      intros ? ? [Hin|[]]; discriminate.
    + exists [CallFetchTranscript videoId; CallWhich]. split.
      * unfold Spec.at_fallback, Spec.after. cbn [calls].
        now rewrite <- List.app_assoc.
      * intros ? ? [Hin|[Hin|[]]]; discriminate.
Qed.

(** A run in which the download leaves the file behind and the
    speech-to-text service then fails: the download was asked for, and the
    file is gone. *)
Lemma temp_file_removed_example :
  In (CallDownload Demo.watch_url "/tmp/whisper_audio_1700000000000.mp3")
     (calls (snd (POST Later
                    (Demo.fallback_host
                       (inl (Demo.api_error 500 "server_error" "The server had an error")))
                    (Some Demo.watch_url) Demo.start))) /\
  "/tmp/whisper_audio_1700000000000.mp3"
  ∉ files (snd (POST Later
                  (Demo.fallback_host
                     (inl (Demo.api_error 500 "server_error" "The server had an error")))
                  (Some Demo.watch_url) Demo.start)).
Proof.
  assert (Hin : In (CallDownload Demo.watch_url "/tmp/whisper_audio_1700000000000.mp3")
                   (calls (snd (POST Later
                      (Demo.fallback_host
                         (inl (Demo.api_error 500 "server_error" "The server had an error")))
                      (Some Demo.watch_url) Demo.start)))).
  { vm_compute. do 3 right. left. reflexivity. }
  split; [exact Hin|].
  destruct (proj2 temp_file_removed Later
              (Demo.fallback_host
                 (inl (Demo.api_error 500 "server_error" "The server had an error")))
              (Some Demo.watch_url) Demo.start) as (made & Hc & Hd).
  change (calls Demo.start ++ made) with made in Hc. rewrite Hc in Hin.
  exact (proj2 (Hd _ _ Hin)).
Defined.

(** The same run, call by call. *)
Example temp_file_removed_after_failure :
  calls (snd (POST Later (Demo.fallback_host (inl (Demo.api_error 500 "server_error" "The server had an error")))
                (Some Demo.watch_url) Demo.start))
  = [ CallFetchTranscript "abc12345678"; CallWhich;
      CallDumpJson Demo.watch_url;
      CallDownload Demo.watch_url "/tmp/whisper_audio_1700000000000.mp3";
      CallTranscribe "/tmp/whisper_audio_1700000000000.mp3";
      CallUnlink "/tmp/whisper_audio_1700000000000.mp3" ] /\
  files (snd (POST Later (Demo.fallback_host (inl (Demo.api_error 500 "server_error" "The server had an error")))
                (Some Demo.watch_url) Demo.start))
  = ∅.
Proof. split; [reflexivity|]. vm_compute. reflexivity. Qed.

(** C5.  In the later revision, when the native path has failed and the
    configured credential is malformed (absent or empty, without the prefix
    [sk-], or shorter than 20 characters), the resolver answers at once
    with status 500 and a message that names [OPENAI_API_KEY]; the request
    for the captions is the only outside call it has made, so neither the
    metadata probe nor the download nor the transcription request is
    attempted. *)
Theorem malformed_credential_fails_fast (h : Host) (u videoId : string) (w : World) :
  u <> EmptyString -> extractVideoId u = Some videoId ->
  Spec.native_text h videoId = None ->
  Spec.malformed_credential (OPENAI_API_KEY h) = true ->
  exists msg,
    POST Later h (Some u) w =
    (Returns (json (ErrorBody msg) 500),
     Spec.after w [CallFetchTranscript videoId]) /\
    includes msg "OPENAI_API_KEY" = true /\
    existsb Spec.fallback_network_call (calls (snd (POST Later h (Some u) w)))
    = existsb Spec.fallback_network_call (calls w).
Proof.
  intros Hu Hid Hn Hm. rewrite (POST_run Later h u videoId w Hu Hid), Hn.
  assert (H : exists msg,
             fallback Later h u (Spec.after w [CallFetchTranscript videoId]) =
             (Returns (json (ErrorBody msg) 500),
              Spec.after w [CallFetchTranscript videoId]) /\
             includes msg "OPENAI_API_KEY" = true).
  { destruct (truthy (OPENAI_API_KEY h)) eqn:Hk.
    - now apply fallback_bad_key.
    - rewrite fallback_no_key by exact Hk. eexists. split; reflexivity. }
  destruct H as (msg & -> & Hmsg). exists msg. repeat split; trivial.
  unfold Spec.after. cbn [snd calls]. rewrite existsb_app. cbn.
  now rewrite orb_false_r.
Qed.

(** A credential without the expected prefix. *)
Lemma malformed_credential_example :
  (Demo.watch_url <> EmptyString /\
   extractVideoId Demo.watch_url = Some "abc12345678" /\
   Spec.native_text
     (Demo.host (Some "pk-0123456789abcdefghij") (inl Demo.no_captions) true
        (inr Demo.info) None (inr Demo.spaced_speech)) "abc12345678" = None /\
   Spec.malformed_credential (Some "pk-0123456789abcdefghij") = true) /\
  exists msg,
    POST Later
      (Demo.host (Some "pk-0123456789abcdefghij") (inl Demo.no_captions) true
         (inr Demo.info) None (inr Demo.spaced_speech))
      (Some Demo.watch_url) Demo.start =
    (Returns (json (ErrorBody msg) 500),
     Spec.after Demo.start [CallFetchTranscript "abc12345678"]) /\
    includes msg "OPENAI_API_KEY" = true /\
    existsb Spec.fallback_network_call
      (calls (snd (POST Later
                     (Demo.host (Some "pk-0123456789abcdefghij")
                        (inl Demo.no_captions) true (inr Demo.info) None
                        (inr Demo.spaced_speech))
                     (Some Demo.watch_url) Demo.start)))
    = existsb Spec.fallback_network_call (calls Demo.start).
Proof.
  assert (H : Demo.watch_url <> EmptyString /\
              extractVideoId Demo.watch_url = Some "abc12345678" /\
              Spec.native_text
                (Demo.host (Some "pk-0123456789abcdefghij") (inl Demo.no_captions)
                   true (inr Demo.info) None (inr Demo.spaced_speech))
                "abc12345678" = None /\
              Spec.malformed_credential (Some "pk-0123456789abcdefghij") = true).
  { split; [discriminate|]. repeat split; reflexivity. }
  split; [exact H|]. destruct H as (Hu & Hid & Hn & Hm).
  exact (malformed_credential_fails_fast
           (Demo.host (Some "pk-0123456789abcdefghij") (inl Demo.no_captions) true
              (inr Demo.info) None (inr Demo.spaced_speech))
           Demo.watch_url "abc12345678" Demo.start Hu Hid Hn Hm).
Defined.

(** The earlier revision has no such check: with the same credential it
    goes on to the metadata probe, the download and the transcription
    request. *)
Example earlier_revision_does_not_validate :
  calls (snd (POST Earlier
                (Demo.host (Some "pk-0123456789abcdefghij") (inl Demo.no_captions)
                   true (inr Demo.info) None (inr Demo.spaced_speech))
                (Some Demo.watch_url) Demo.start))
  = [ CallFetchTranscript "abc12345678"; CallWhich;
      CallDumpJson Demo.watch_url;
      CallDownload Demo.watch_url "/tmp/whisper_audio_1700000000000.mp3";
      CallTranscribe "/tmp/whisper_audio_1700000000000.mp3";
      CallUnlink "/tmp/whisper_audio_1700000000000.mp3" ].
Proof. reflexivity. Qed.

(** The claim as the spec words it fails on the earlier revision: the
    speech-to-text service rejects the credential with status 401, and the
    route answers with status 500. *)
Lemma earlier_revision_answers_500 :
  transcriptions_create
    (Demo.fallback_host
       (inl (Demo.api_error 401 "invalid_api_key" "401 Incorrect API key provided")))
    (tempFile (Demo.fallback_host
       (inl (Demo.api_error 401 "invalid_api_key" "401 Incorrect API key provided"))))
  = inl (Demo.api_error 401 "invalid_api_key" "401 Incorrect API key provided") /\
  In (CallTranscribe "/tmp/whisper_audio_1700000000000.mp3")
     (calls (snd (POST Earlier
                    (Demo.fallback_host
                       (inl (Demo.api_error 401 "invalid_api_key"
                               "401 Incorrect API key provided")))
                    (Some Demo.watch_url) Demo.start))) /\
  fst (POST Earlier
         (Demo.fallback_host
            (inl (Demo.api_error 401 "invalid_api_key"
                    "401 Incorrect API key provided")))
         (Some Demo.watch_url) Demo.start)
  = Returns (json (ErrorBody "Invalid OpenAI API key for Whisper transcription") 500).
Proof.
  split; [reflexivity|]. split; [|reflexivity].
  vm_compute. do 4 right. left. reflexivity.
Qed.

(** The later revision on a rejected credential and on a rate limit, from
    the request to the answer. *)
Example later_revision_answers_401_and_429 :
  status_of
    (fst (POST Later
            (Demo.fallback_host
               (inl (Demo.api_error 401 "invalid_api_key"
                       "401 Incorrect API key provided")))
            (Some Demo.watch_url) Demo.start)) = Some 401%Z /\
  status_of
    (fst (POST Later
            (Demo.fallback_host
               (inl (Demo.api_error 429 "rate_limit_exceeded"
                       "429 Rate limit reached for whisper-1")))
            (Some Demo.watch_url) Demo.start)) = Some 429%Z.
Proof. split; reflexivity. Qed.

(** C10.  An answer of the fallback ([usedWhisper = true]) carries as its
    content the output of the transcription request as it came, with the
    title of the metadata; and whenever the fallback runs through and the
    service returns 50 characters or more, that output is the content.
    No white space is collapsed and nothing is trimmed. *)
Theorem whisper_content_verbatim :
  (forall rev h url w content t st,
      fst (POST rev h url w)
      = Returns {| body := TranscriptBody content t true; status := st |} ->
      transcriptions_create h (tempFile h) = inr content /\
      exists u info, url = Some u /\ dump_json h u = inr info /\ t = title info) /\
  (forall rev h u videoId w info t,
      u <> EmptyString -> extractVideoId u = Some videoId ->
      Spec.native_text h videoId = None ->
      truthy (OPENAI_API_KEY h) = true ->
      (rev = Earlier \/ Spec.malformed_credential (OPENAI_API_KEY h) = false) ->
      yt_dlp_installed h = true ->
      dump_json h u = inr info ->
      fst (download h u (tempFile h) (files w)) = None ->
      transcriptions_create h (tempFile h) = inr t ->
      50 <= String.length t ->
      fst (POST rev h (Some u) w)
      = Returns (json (TranscriptBody t (title info) true) 200)).
Proof.
  split.
  - intros rev h url w content t st.
    destruct (POST_exits rev h url w) as (resp & w' & -> & Hexit).
    cbn [fst]. intros [= ->]. inversion Hexit; subst; try discriminate.
    + destruct (whisperFailure_error rev e) as (msg & Hmsg).
      match goal with H : whisperFailure _ _ = _ |- _ => rewrite H in Hmsg end.
      discriminate.
    + eauto 6.
  - intros rev h u videoId w info t Hu Hid Hn Hk Hm Hy Hi Hd Ht Hlen.
    rewrite (POST_run rev h u videoId w Hu Hid), Hn.
    rewrite (fallback_attempt rev h u _ Hk Hm), Hy.
    pose proof (whisperStep_success rev h u
                  (Spec.after (Spec.after w [CallFetchTranscript videoId])
                     [CallWhich]) info t Hm Hi Hd Ht Hlen) as Hs.
    destruct (whisperStep rev h u
                (Spec.after (Spec.after w [CallFetchTranscript videoId])
                   [CallWhich])) as [[r|e] w']; cbn [fst] in *; congruence.
Qed.

(** The service's output with its leading, trailing and doubled spaces is
    the content; the normalisation of the native path would have changed
    it. *)
Lemma whisper_content_verbatim_example :
  fst (POST Later (Demo.fallback_host (inr Demo.spaced_speech))
         (Some Demo.watch_url) Demo.start)
  = Returns {| body := TranscriptBody Demo.spaced_speech "A talk" true;
               status := 200 |} /\
  nativeTranscript [ {| text := Demo.spaced_speech |} ] <> Demo.spaced_speech /\
  transcriptions_create (Demo.fallback_host (inr Demo.spaced_speech))
    (tempFile (Demo.fallback_host (inr Demo.spaced_speech)))
  = inr Demo.spaced_speech.
Proof.
  split; [reflexivity|]. split; [discriminate|].
  exact (proj1 (proj1 whisper_content_verbatim Later
                  (Demo.fallback_host (inr Demo.spaced_speech))
                  (Some Demo.watch_url) Demo.start Demo.spaced_speech
                  "A talk" 200%Z eq_refl)).
Defined.

End Resolver.

(** * The text cleaner *)

Module Cleaner.
Import Js Eff Anthropic.

(** C7.  A cleaning call whose arguments and credential are present sends
    one request; when the remote message starts with a text block, the
    answer is that block's text as it came, with status 200.  Conversely
    the [result] of every answer is the [text] member of the first block of
    the remote message, unchanged. *)
Theorem cleaner_returns_first_segment :
  (forall h c k w t rest,
      truthy (Some c) = true -> truthy (Some k) = true ->
      truthy (ANTHROPIC_API_KEY h) = true ->
      messages_create h (request c k) = inr (TextBlock t :: rest) ->
      POST h (Some c) (Some k) w =
      (Returns (json (ResultBody (Some t)) 200),
       {| sent := sent w ++ [request c k] |})) /\
  (forall h content task w r st,
      fst (POST h content task w)
      = Returns {| body := ResultBody r; status := st |} ->
      exists c k first rest,
        content = Some c /\ task = Some k /\
        messages_create h (request c k) = inr (first :: rest) /\
        r = block_text first /\ st = 200%Z /\
        sent (snd (POST h content task w)) = sent w ++ [request c k]).
Proof.
  split.
  - intros h c k w t rest Hc Hk Hkey Hm. unfold POST.
    rewrite Hc, Hk, Hkey. cbn [negb orb].
    unfold try_catch, bind, create. fold (request c k). now rewrite Hm.
  - intros h content task w r st. unfold POST.
    destruct content as [c|], task as [k|]; try discriminate.
    destruct (truthy (Some c)); cbn [negb orb]; [|discriminate].
    destruct (truthy (Some k)); cbn [negb orb]; [|discriminate].
    destruct (truthy (ANTHROPIC_API_KEY h)); cbn [negb]; [|discriminate].
    unfold try_catch, bind, create. fold (request c k).
    destruct (messages_create h (request c k)) as [e|[|first rest]] eqn:Hm;
      cbn [fst snd sent]; try discriminate.
    intros [= <- <-]. exists c, k, first, rest. auto 10.
Qed.

(** White space around and inside the remote text is kept. *)
Lemma cleaner_returns_first_segment_example :
  POST {| ANTHROPIC_API_KEY := Some "sk-ant-key";
          messages_create := fun _ => inr [TextBlock "  An  article. "; OtherBlock] |}
       (Some "raw transcript") (Some "clean it") {| sent := [] |}
  = (Returns (json (ResultBody (Some "  An  article. ")) 200),
     {| sent := [] ++ [request "raw transcript" "clean it"] |}).
Proof.
  exact (proj1 cleaner_returns_first_segment
           {| ANTHROPIC_API_KEY := Some "sk-ant-key";
              messages_create := fun _ => inr [TextBlock "  An  article. "; OtherBlock] |}
           "raw transcript" "clean it" {| sent := [] |} "  An  article. " [OtherBlock]
           eq_refl eq_refl eq_refl eq_refl).
Defined.



End Cleaner.

(** * The client orchestrator *)

Module Orchestrator.
Import Js Eff Page.

Ltac run_page :=
  cbv beta iota zeta delta
    [bind ret throw try_catch try_finally of_result emit update
     axios_post_youtube axios_post_anthropic
     setProcessing setError setRawTranscript setCleanedTranscript
     setVideoTitle setUsedWhisper setCurrentStep setYoutubeUrl
     view events fst snd youtubeUrl processing rawTranscript
     cleanedTranscript videoTitle usedWhisper error currentStep].

(** The run after a rejected first call: the error is shown, the page is
    idle again, and the only events are the first step's. *)
Lemma handleSubmit_rejected (net : Net) (w : World) (e : Thrown) :
  truthy (Some (trim (youtubeUrl (view w)))) = true ->
  post_youtube net (youtubeUrl (view w)) = inl e ->
  handleSubmit net w =
  (Returns tt,
   {| view := {| youtubeUrl := youtubeUrl (view w); processing := false;
                 rawTranscript := None; cleanedTranscript := None;
                 videoTitle := None; usedWhisper := false;
                 error := Some (shown_error e); currentStep := "" |};
      events := events w ++ [ Step "Fetching transcript...";
                              PostYoutube (youtubeUrl (view w)); Step "" ] |}).
Proof.
  intros Hu He. unfold handleSubmit. rewrite Hu. cbn [negb].
  destruct w as [[u p r c t uw er st] ev]. cbn [view youtubeUrl events] in *.
  run_page. rewrite He.
  unfold shown_error. destruct (e_response e); run_page;
    now rewrite <- !List.app_assoc.
Qed.

(** An answer of the resolver route that is an error payload has a status
    outside 2xx, so the call of the page is rejected with that payload. *)
Lemma resolver_endpoint_rejects (rev : YouTube.Revision) (h : YouTube.Host)
    (sw : YouTube.World) (url msg : string) (resp : YouTube.Response) :
  fst (YouTube.POST rev h (Some url) sw) = Returns resp ->
  YouTube.body resp = YouTube.ErrorBody msg ->
  exists e,
    resolver_endpoint rev h sw url = inl e /\
    shown_error e = or_else (Some msg) "Failed to process video".
Proof.
  intros Hr Hb. unfold resolver_endpoint. rewrite Hr. unfold answer_of_route.
  destruct (ResolverFacts.POST_exits rev h (Some url) sw)
    as (resp' & w' & Hp & Hexit).
  rewrite Hp in Hr. cbn [fst] in Hr. injection Hr as ->.
  pose proof (ResolverFacts.error_answer_status _ _ _ _ _ _ _ Hexit Hb) as Hst.
  rewrite Hb.
  destruct Hst as [-> |[-> |[-> | ->]]]; eexists; split; reflexivity.
Qed.

(** The reset action returns to [Idle] with nothing left to show. *)
Lemma handleReset_idle (w : World) :
  processing (view w) = false ->
  fst (handleReset w) = Returns tt /\
  phase (view (snd (handleReset w))) = Idle /\
  rawTranscript (view (snd (handleReset w))) = None /\
  error (view (snd (handleReset w))) = None.
Proof.
  intros Hp. destruct w as [[u p r c t uw er st] ev].
  cbn [view processing] in Hp. subst p. unfold handleReset, phase. run_page.
  repeat split.
Qed.

(** C9.  When the first call of a run, to the transcript resolver, is
    rejected, the run ends in [Failed] with the error shown, and the only
    events of the run are the first step's: the text cleaner is not called
    and its step is never entered.  This is so in particular when the
    resolver route itself answers with an error payload. *)
Theorem failed_resolver_stops_the_run :
  (forall net w e,
      truthy (Some (trim (youtubeUrl (view w)))) = true ->
      post_youtube net (youtubeUrl (view w)) = inl e ->
      fst (handleSubmit net w) = Returns tt /\
      phase (view (snd (handleSubmit net w))) = Failed /\
      error (view (snd (handleSubmit net w))) = Some (shown_error e) /\
      cleanedTranscript (view (snd (handleSubmit net w))) = None /\
      events (snd (handleSubmit net w))
      = events w ++ [ Step "Fetching transcript...";
                      PostYoutube (youtubeUrl (view w)); Step "" ] /\
      cleaner_called (events (snd (handleSubmit net w)))
      = cleaner_called (events w)) /\
  (forall rev h sw cleaner w resp msg,
      truthy (Some (trim (youtubeUrl (view w)))) = true ->
      fst (YouTube.POST rev h (Some (youtubeUrl (view w))) sw) = Returns resp ->
      YouTube.body resp = YouTube.ErrorBody msg ->
      phase (view (snd (handleSubmit
                          {| post_youtube := resolver_endpoint rev h sw;
                             post_anthropic := cleaner |} w))) = Failed /\
      cleaner_called (events (snd (handleSubmit
                          {| post_youtube := resolver_endpoint rev h sw;
                             post_anthropic := cleaner |} w)))
      = cleaner_called (events w)).
Proof.
  assert (H1 : forall net w e,
             truthy (Some (trim (youtubeUrl (view w)))) = true ->
             post_youtube net (youtubeUrl (view w)) = inl e ->
             fst (handleSubmit net w) = Returns tt /\
             phase (view (snd (handleSubmit net w))) = Failed /\
             error (view (snd (handleSubmit net w))) = Some (shown_error e) /\
             cleanedTranscript (view (snd (handleSubmit net w))) = None /\
             events (snd (handleSubmit net w))
             = events w ++ [ Step "Fetching transcript...";
                             PostYoutube (youtubeUrl (view w)); Step "" ] /\
             cleaner_called (events (snd (handleSubmit net w)))
             = cleaner_called (events w)).
  { intros net w e Hu He. rewrite (handleSubmit_rejected net w e Hu He).
    cbn [fst snd view events error cleanedTranscript].
    repeat split; trivial.
    unfold cleaner_called. rewrite existsb_app. cbn. now rewrite orb_false_r. }
  split; [exact H1|].
  intros rev h sw cleaner w resp msg Hu Hr Hb.
  destruct (resolver_endpoint_rejects rev h sw _ msg resp Hr Hb) as (e & He & _).
  destruct (H1 {| post_youtube := resolver_endpoint rev h sw;
                  post_anthropic := cleaner |} w e Hu He)
    as (_ & Hp & _ & _ & _ & Hc).
  now split.
Qed.

(** The resolver route rejects a locator, and the page stops there. *)
Lemma failed_resolver_example :
  (truthy (Some (trim (youtubeUrl (view (typed "not a video"))))) = true /\
   fst (YouTube.POST YouTube.Later (Demo.native_host Demo.long_caption)
          (Some "not a video") Demo.start)
   = Returns (YouTube.json (YouTube.ErrorBody "Invalid YouTube URL") 400)) /\
  phase (view (snd (handleSubmit
                      {| post_youtube :=
                           resolver_endpoint YouTube.Later
                             (Demo.native_host Demo.long_caption) Demo.start;
                         post_anthropic := fun _ _ => inr {| d_result := Some "never asked" |} |}
                      (typed "not a video")))) = Failed /\
  cleaner_called (events (snd (handleSubmit
                      {| post_youtube :=
                           resolver_endpoint YouTube.Later
                             (Demo.native_host Demo.long_caption) Demo.start;
                         post_anthropic := fun _ _ => inr {| d_result := Some "never asked" |} |}
                      (typed "not a video"))))
  = cleaner_called (events (typed "not a video")).
Proof.
  split; [split; reflexivity|].
  exact (proj2 failed_resolver_stops_the_run YouTube.Later
           (Demo.native_host Demo.long_caption) Demo.start
           (fun _ _ => inr {| d_result := Some "never asked" |})
           (typed "not a video")
           (YouTube.json (YouTube.ErrorBody "Invalid YouTube URL") 400)
           "Invalid YouTube URL" eq_refl eq_refl eq_refl).
Defined.

End Orchestrator.

(** * The runs of the resolver, step by step *)

Module ResolverRuns.
Import Js Eff YouTube StringFacts ExtractFacts ResolverFacts Notions.

Lemma cleaned_up_absent (h : Host) (fs : gset string) :
  tempFile h ∉ fs -> cleaned_up h fs = fs.
Proof.
  intros H. unfold cleaned_up. apply difference_disjoint_L.
  now apply disjoint_singleton_r.
Qed.

Lemma cleaned_up_without (h : Host) (fs : gset string) :
  tempFile h ∉ cleaned_up h fs.
Proof.
  unfold cleaned_up. intros H. apply elem_of_difference in H as [_ H].
  apply H. now apply elem_of_singleton.
Qed.

(** The clean-up removes the temporary file and no other. *)
(** [transcribeWithWhisper] past the validation of the credential: the
    probe, then the download, then the transcription request, each only
    when the one before succeeded, and the clean-up after the download
    whatever came of it. *)
Lemma transcribeWithWhisper_run (rev : Revision) (h : Host) (u : string) (w : World) :
  (rev = Earlier \/ Spec.malformed_credential (OPENAI_API_KEY h) = false) ->
  transcribeWithWhisper rev h u w =
  match dump_json h u with
  | inl e => (Throws (info_error e), Spec.after w [CallDumpJson u])
  | inr info =>
      let dl := download h u (tempFile h) (files w) in
      match fst dl with
      | Some e =>
          (Throws e,
           {| files := cleaned_up h (snd dl);
              calls := calls w ++ [CallDumpJson u; CallDownload u (tempFile h)]
                               ++ cleanup_calls h (snd dl) |})
      | None =>
          (match transcriptions_create h (tempFile h) with
           | inl e => Throws e
           | inr t => Returns {| wr_transcript := t; wr_title := title info |}
           end,
           {| files := cleaned_up h (snd dl);
              calls := calls w ++ [CallDumpJson u; CallDownload u (tempFile h);
                                   CallTranscribe (tempFile h)]
                               ++ cleanup_calls h (snd dl) |})
      end
  end.
Proof.
  intros Hm. destruct w as [fs cs].
  assert (Hv : forall w0, match rev with
                          | Later => validateOpenAIKey (OPENAI_API_KEY h)
                          | Earlier => ret tt
                          end w0 = (Returns tt, w0)).
  { intros w0. destruct rev; [reflexivity|]. destruct Hm as [|Hm]; [discriminate|].
    now apply validateOpenAIKey_ok. }
  unfold transcribeWithWhisper. unfold bind at 1. rewrite Hv. run.
  unfold info_error, cleanup_calls.
  destruct (dump_json h u) as [e|info]; run; [reflexivity|].
  destruct (download h u (tempFile h) fs) as [o fs']. run.
  destruct o as [e|]; run.
  - destruct (bool_decide (tempFile h ∈ fs')) eqn:B; run;
      rewrite <- ?List.app_assoc; cbn [app]; [reflexivity|].
    apply bool_decide_eq_false in B. now rewrite cleaned_up_absent.
  - destruct (transcriptions_create h (tempFile h)) as [e|t]; run;
      (destruct (bool_decide (tempFile h ∈ fs')) eqn:B; run;
       rewrite <- ?List.app_assoc; cbn [app]; [reflexivity|];
       apply bool_decide_eq_false in B; now rewrite cleaned_up_absent).
Qed.

(** The error of a transcript that is empty or under the threshold. *)
Lemma whisperStep_unfold (rev : Revision) (h : Host) (u : string) (w : World) :
  whisperStep rev h u w =
  match transcribeWithWhisper rev h u w with
  | (Returns r, w') =>
      if String.eqb (wr_transcript r) "" || Nat.ltb (String.length (wr_transcript r)) 50
      then (Throws (new_Error "Whisper transcription was empty or too short"), w')
      else (Returns (json (TranscriptBody (wr_transcript r) (wr_title r) true) 200), w')
  | (Throws e, w') => (Throws e, w')
  end.
Proof.
  unfold whisperStep, bind, truthy.
  destruct (transcribeWithWhisper rev h u w) as [[r|e] w']; [|reflexivity].
  rewrite negb_involutive.
  now destruct (String.eqb (wr_transcript r) "" ||
                Nat.ltb (String.length (wr_transcript r)) 50).
Qed.

(** Past the checks, [POST] answers with what the fallback returns or with
    the handler's translation of what it throws. *)
Lemma POST_fallback (rev : Revision) (h : Host) (u videoId : string) (w : World) :
  reaches_fallback rev h u videoId ->
  POST rev h (Some u) w =
  match whisperStep rev h u (Spec.at_fallback w videoId) with
  | (Returns r, w') => (Returns r, w')
  | (Throws e, w') => (Returns (whisperFailure rev e), w')
  end.
Proof.
  intros (Hu & Hid & Hn & Hk & Hm & Hy).
  rewrite (POST_run rev h u videoId w Hu Hid), Hn.
  now rewrite (fallback_attempt rev h u _ Hk Hm), Hy.
Qed.

(** The whole run of a request that reaches the fallback, read off the
    oracles. *)
Lemma POST_fallback_run (rev : Revision) (h : Host) (u videoId : string) (w : World) :
  reaches_fallback rev h u videoId ->
  POST rev h (Some u) w =
  match dump_json h u with
  | inl e =>
      (Returns (whisperFailure rev (info_error e)),
       Spec.after w [CallFetchTranscript videoId; CallWhich; CallDumpJson u])
  | inr info =>
      let dl := download h u (tempFile h) (files w) in
      match fst dl with
      | Some e =>
          (Returns (whisperFailure rev e),
           {| files := cleaned_up h (snd dl);
              calls := calls w ++ [CallFetchTranscript videoId; CallWhich;
                                   CallDumpJson u; CallDownload u (tempFile h)]
                               ++ cleanup_calls h (snd dl) |})
      | None =>
          (Returns
             match transcriptions_create h (tempFile h) with
             | inl e => whisperFailure rev e
             | inr t =>
                 if String.eqb t "" || Nat.ltb (String.length t) 50
                 then whisperFailure rev
                        (new_Error "Whisper transcription was empty or too short")
                 else json (TranscriptBody t (title info) true) 200
             end,
           {| files := cleaned_up h (snd dl);
              calls := calls w ++ [CallFetchTranscript videoId; CallWhich;
                                   CallDumpJson u; CallDownload u (tempFile h);
                                   CallTranscribe (tempFile h)]
                               ++ cleanup_calls h (snd dl) |})
      end
  end.
Proof.
  intros Hr. rewrite (POST_fallback rev h u videoId w Hr).
  destruct Hr as (_ & _ & _ & _ & Hm & _).
  rewrite whisperStep_unfold, (transcribeWithWhisper_run rev h u _ Hm).
  unfold Spec.at_fallback, Spec.after. cbn [files calls].
  destruct (dump_json h u) as [e|info].
  { now rewrite <- !List.app_assoc. }
  cbv zeta. destruct (fst (download h u (tempFile h) (files w))) as [e|].
  { now rewrite <- !List.app_assoc. }
  destruct (transcriptions_create h (tempFile h)) as [e|t].
  { now rewrite <- !List.app_assoc. }
  cbn [wr_transcript wr_title].
  destruct (String.eqb t "" || Nat.ltb (String.length t) 50);
    now rewrite <- !List.app_assoc.
Qed.

(** The paths of a request that does not reach the fallback: no usable
    locator; an answer after the request for the captions alone; or, with a
    credential that passes the checks, an answer after the search for the
    download utility, which is missing. *)
Lemma POST_before_fallback (rev : Revision) (h : Host) (url : option string) (w : World) :
  (exists u videoId, url = Some u /\ reaches_fallback rev h u videoId) \/
  (exists msg, Spec.bad_input url /\
               POST rev h url w = (Returns (json (ErrorBody msg) 400), w)) \/
  (exists u videoId resp,
      url = Some u /\ extractVideoId u = Some videoId /\
      (POST rev h url w = (Returns resp, Spec.after w [CallFetchTranscript videoId]) \/
       (truthy (OPENAI_API_KEY h) = true /\
        (rev = Earlier \/ Spec.malformed_credential (OPENAI_API_KEY h) = false) /\
        yt_dlp_installed h = false /\
        POST rev h url w =
        (Returns resp,
         Spec.after w [CallFetchTranscript videoId; CallWhich])))).
Proof.
  destruct (truthy_cases url) as [Hu|(u & -> & Hu)].
  { right; left. destruct (POST_bad_input rev h url w (or_introl Hu)) as (msg & E).
    exists msg. split; [now left | exact E]. }
  destruct (extractVideoId u) as [videoId|] eqn:Hid.
  2:{ right; left. assert (Hb : Spec.bad_input (Some u)) by (right; eauto).
      destruct (POST_bad_input rev h (Some u) w Hb) as (msg & E). eauto. }
  rewrite (POST_run rev h u videoId w Hu Hid).
  destruct (Spec.native_text h videoId) as [t|] eqn:Hn.
  { right; right. eexists u, videoId, _. split; [reflexivity|]. split; [exact Hid|].
    left. reflexivity. }
  destruct (truthy (OPENAI_API_KEY h)) eqn:Hk.
  2:{ rewrite fallback_no_key by exact Hk. right; right.
      eexists u, videoId, _. split; [reflexivity|]. split; [exact Hid|].
      left. reflexivity. }
  assert (Hcase : (rev = Later /\
                   Spec.malformed_credential (OPENAI_API_KEY h) = true) \/
                  (rev = Earlier \/
                   Spec.malformed_credential (OPENAI_API_KEY h) = false)).
  { destruct rev; [now right; left|].
    destruct (Spec.malformed_credential (OPENAI_API_KEY h)); auto. }
  destruct Hcase as [[-> Hm]|Hm].
  { destruct (fallback_bad_key h u (Spec.after w [CallFetchTranscript videoId])
                Hk Hm) as (msg & -> & _).
    right; right. eexists u, videoId, _. split; [reflexivity|]. split; [exact Hid|].
    left. reflexivity. }
  destruct (yt_dlp_installed h) eqn:Hy.
  { left. exists u, videoId. split; [reflexivity|]. unfold reaches_fallback. auto 10. }
  rewrite (fallback_attempt rev h u _ Hk Hm), Hy.
  right; right. eexists u, videoId, _. split; [reflexivity|]. split; [exact Hid|].
  right. split; [reflexivity|]. split; [exact Hm|]. split; [reflexivity|].
  unfold Spec.after. cbn [files calls]. now rewrite <- List.app_assoc.
Qed.

End ResolverRuns.

(** * More facts about strings *)

Module IncludesFacts.
Import Js StringFacts.

Lemma includes_unfold (s p : string) :
  includes s p =
  startsWith s p ||
  match s with
  | EmptyString => false
  | String _ s' => includes s' p
  end.
Proof. destruct s; reflexivity. Qed.

Lemma startsWith_iff (s p : string) :
  startsWith s p = true <-> exists rest, s = p +:+ rest.
Proof.
  unfold startsWith. split.
  - destruct (strip_prefix p s) as [r|] eqn:E; [|discriminate].
    intros _. exists r. now apply strip_prefix_inv.
  - intros (rest & ->). now rewrite strip_prefix_app.
Qed.

(** [s.includes(p)] holds exactly when [p] occurs in [s]. *)
Lemma includes_iff (s p : string) :
  includes s p = true <-> exists pre rest, s = pre +:+ p +:+ rest.
Proof.
  induction s as [|c s IH]; rewrite includes_unfold, orb_true_iff.
  - split.
    + intros [H|H]; [|discriminate].
      apply startsWith_iff in H as (rest & ->). now exists "", rest.
    + intros (pre & rest & H). left. apply startsWith_iff.
      destruct pre; [|discriminate]. now exists rest.
  - split.
    + intros [H|H].
      * apply startsWith_iff in H as (rest & ->). now exists "", rest.
      * apply IH in H as (pre & rest & ->). now exists (String c pre), rest.
    + intros (pre & rest & H). destruct pre as [|d pre].
      * left. apply startsWith_iff. now exists rest.
      * right. rewrite app_cons in H. injection H as _ ->.
        apply IH. now exists pre, rest.
Qed.

Lemma includes_self (s : string) : includes s s = true.
Proof. apply includes_iff. exists "", "". now rewrite app_nil_l, app_nil_r. Qed.

(** What contains a text contains every part of it. *)
Lemma includes_part (s a b c : string) :
  includes s (a +:+ b +:+ c) = true -> includes s b = true.
Proof.
  intros H. apply includes_iff in H as (pre & rest & ->). apply includes_iff.
  exists (pre +:+ a), (c +:+ rest). now rewrite !app_assoc.
Qed.

End IncludesFacts.

(** * Further properties of the resolver *)

Module ResolverMore.
Import Js Eff YouTube StringFacts ExtractFacts ResolverFacts Notions
       ResolverRuns IncludesFacts.

Lemma app_same_head {A} (l m : list A) : l = l ++ m -> m = [].
Proof.
  intros H. rewrite <- (List.app_nil_r l) in H at 1.
  now apply List.app_inv_head in H.
Qed.

Ltac pick_sequence := cbn [In]; repeat (first [left; reflexivity | right]).

(** Whatever the request, the route makes a call other than the request
    for the captions (the search for the download utility, the metadata
    probe, the download, the transcription request, the removal of the
    file) only with a credential that is configured and, in the later
    revision, well-formed. *)
Theorem credential_before_outside_calls (rev : Revision) (h : Host)
    (url : option string) (w : World) (made : list Call) (c : Call) :
  calls (snd (POST rev h url w)) = calls w ++ made ->
  In c made ->
  (forall videoId, c <> CallFetchTranscript videoId) ->
  truthy (OPENAI_API_KEY h) = true /\
  (rev = Later -> Spec.malformed_credential (OPENAI_API_KEY h) = false).
Proof.
  intros Hc Hin Hne.
  assert (Hgood : forall (Hk : truthy (OPENAI_API_KEY h) = true)
                         (Hm : rev = Earlier \/
                               Spec.malformed_credential (OPENAI_API_KEY h) = false),
             truthy (OPENAI_API_KEY h) = true /\
             (rev = Later -> Spec.malformed_credential (OPENAI_API_KEY h) = false)).
  { intros Hk Hm. split; [exact Hk|]. intros ->.
    destruct Hm as [Hm|Hm]; [discriminate | exact Hm]. }
  destruct (POST_before_fallback rev h url w)
    as [(u & videoId & -> & _ & _ & _ & Hk & Hm & _)
       |[(msg & _ & E)|(u & videoId & resp & -> & _ & [E|(Hk & Hm & _ & E)])]].
  - now apply Hgood.
  - rewrite E in Hc. cbn [snd] in Hc. apply app_same_head in Hc. now subst made.
  - rewrite E in Hc. cbn [snd Spec.after calls] in Hc.
    apply List.app_inv_head in Hc. subst made.
    destruct Hin as [<-|[]]. now destruct (Hne videoId).
  - now apply Hgood.
Qed.

Lemma credential_before_outside_calls_example :
  (calls (snd (POST Later (Demo.fallback_host (inr Demo.spaced_speech))
                 (Some Demo.watch_url) Demo.start))
   = calls Demo.start ++
     [ CallFetchTranscript "abc12345678"; CallWhich; CallDumpJson Demo.watch_url;
       CallDownload Demo.watch_url "/tmp/whisper_audio_1700000000000.mp3";
       CallTranscribe "/tmp/whisper_audio_1700000000000.mp3";
       CallUnlink "/tmp/whisper_audio_1700000000000.mp3" ]) /\
  truthy (OPENAI_API_KEY (Demo.fallback_host (inr Demo.spaced_speech))) = true /\
  (Later = Later ->
   Spec.malformed_credential
     (OPENAI_API_KEY (Demo.fallback_host (inr Demo.spaced_speech))) = false).
Proof.
  split; [reflexivity|].
  apply (credential_before_outside_calls Later
           (Demo.fallback_host (inr Demo.spaced_speech)) (Some Demo.watch_url)
           Demo.start
           [ CallFetchTranscript "abc12345678"; CallWhich;
             CallDumpJson Demo.watch_url;
             CallDownload Demo.watch_url "/tmp/whisper_audio_1700000000000.mp3";
             CallTranscribe "/tmp/whisper_audio_1700000000000.mp3";
             CallUnlink "/tmp/whisper_audio_1700000000000.mp3" ]
           CallWhich).
  - reflexivity.
  - cbn [In]. right. left. reflexivity.
  - intros videoId. discriminate.
Defined.

(** The outside calls of one request are none, or one of seven sequences:
    the request for the captions, then the search for the utility, the
    probe, the download, the transcription request, and the removal of the
    temporary file, each at most once and in this order; the native path is
    never tried again, and the transcription request is never sent without
    the download before it. *)
Theorem outside_calls_in_order (rev : Revision) (h : Host)
    (url : option string) (w : World) :
  exists made,
    calls (snd (POST rev h url w)) = calls w ++ made /\
    (made = [] \/
     exists u videoId,
       url = Some u /\ extractVideoId u = Some videoId /\
       In made (call_sequences h u videoId)).
Proof.
  destruct (POST_before_fallback rev h url w)
    as [(u & videoId & -> & Hr)
       |[(msg & _ & E)|(u & videoId & resp & -> & Hid & [E|(_ & _ & _ & E)])]].
  - rewrite (POST_fallback_run rev h u videoId w Hr).
    destruct Hr as (_ & Hid & _).
    destruct (dump_json h u) as [e|info].
    { eexists. split; [reflexivity|]. right. exists u, videoId.
      repeat split; trivial. unfold call_sequences. pick_sequence. }
    cbv zeta. unfold cleanup_calls.
    destruct (fst (download h u (tempFile h) (files w)));
      destruct (bool_decide
                  (tempFile h ∈ snd (download h u (tempFile h) (files w))));
      (eexists; split; [reflexivity|]; right; exists u, videoId;
       repeat split; trivial; unfold call_sequences; pick_sequence).
  - exists []. rewrite E. cbn [snd]. split; [now rewrite List.app_nil_r | now left].
  - eexists. rewrite E. split; [reflexivity|]. right. exists u, videoId.
    repeat split; trivial. unfold call_sequences. pick_sequence.
  - eexists. rewrite E. split; [reflexivity|]. right. exists u, videoId.
    repeat split; trivial. unfold call_sequences. pick_sequence.
Qed.

Ltac demo_reaches :=
  unfold reaches_fallback;
  repeat match goal with
         | |- _ /\ _ => split
         | |- _ <> _ => discriminate
         | |- _ \/ _ => right
         | |- _ = _ => reflexivity
         end.



(** When the download fails, the transcription request is never sent; the
    temporary file is removed if the download left it; and the answer is
    the handler's translation of the download's error. *)
Theorem download_failure_skips_transcription (rev : Revision) (h : Host)
    (u videoId : string) (w : World) (info : VideoInfo) (e : Thrown) :
  reaches_fallback rev h u videoId ->
  dump_json h u = inr info ->
  fst (download h u (tempFile h) (files w)) = Some e ->
  POST rev h (Some u) w =
  (Returns (whisperFailure rev e),
   {| files := cleaned_up h (snd (download h u (tempFile h) (files w)));
      calls := calls w ++ [CallFetchTranscript videoId; CallWhich;
                           CallDumpJson u; CallDownload u (tempFile h)]
                       ++ cleanup_calls h (snd (download h u (tempFile h) (files w))) |}) /\
  ~ In (CallTranscribe (tempFile h))
       ([CallFetchTranscript videoId; CallWhich;
         CallDumpJson u; CallDownload u (tempFile h)]
        ++ cleanup_calls h (snd (download h u (tempFile h) (files w)))).
Proof.
  intros Hr Hi Hd. split.
  - rewrite (POST_fallback_run rev h u videoId w Hr), Hi. cbv zeta. now rewrite Hd.
  - unfold cleanup_calls.
    destruct (bool_decide (tempFile h ∈ snd (download h u (tempFile h) (files w))));
      cbn [app In]; intros H;
      repeat match type of H with
             | _ \/ _ => destruct H as [H|H]
             | False => contradiction
             | _ = _ => discriminate H
             end.
Qed.

Lemma download_failure_example :
  (reaches_fallback Earlier
     (Demo.host (Some Demo.good_key) (inl Demo.no_captions) true (inr Demo.info)
        (Some (new_Error "Command failed: yt-dlp")) (inr Demo.spaced_speech))
     Demo.watch_url "abc12345678") /\
  POST Earlier
    (Demo.host (Some Demo.good_key) (inl Demo.no_captions) true (inr Demo.info)
       (Some (new_Error "Command failed: yt-dlp")) (inr Demo.spaced_speech))
    (Some Demo.watch_url) Demo.start
  = (Returns (json (ErrorBody "Whisper transcription failed: Command failed: yt-dlp") 500),
     {| files := cleaned_up
                   (Demo.host (Some Demo.good_key) (inl Demo.no_captions) true
                      (inr Demo.info) (Some (new_Error "Command failed: yt-dlp"))
                      (inr Demo.spaced_speech))
                   (∅ ∪ {[ "/tmp/whisper_audio_1700000000000.mp3" ]});
        calls := [ CallFetchTranscript "abc12345678"; CallWhich;
                   CallDumpJson Demo.watch_url;
                   CallDownload Demo.watch_url "/tmp/whisper_audio_1700000000000.mp3";
                   CallUnlink "/tmp/whisper_audio_1700000000000.mp3" ] |}).
Proof.
  assert (Hr : reaches_fallback Earlier
                 (Demo.host (Some Demo.good_key) (inl Demo.no_captions) true
                    (inr Demo.info) (Some (new_Error "Command failed: yt-dlp"))
                    (inr Demo.spaced_speech))
                 Demo.watch_url "abc12345678") by demo_reaches.
  split; [exact Hr|].
  exact (proj1 (download_failure_skips_transcription Earlier _ Demo.watch_url
                  "abc12345678" Demo.start Demo.info
                  (new_Error "Command failed: yt-dlp") Hr eq_refl eq_refl)).
Defined.

(** A transcript of the speech-to-text service that is shorter than 50
    characters, the empty one included, is not returned: both revisions
    answer with status 500 and the same message, and the temporary file is
    gone. *)
Theorem short_transcript_rejected (rev : Revision) (h : Host)
    (u videoId : string) (w : World) (info : VideoInfo) (t : string) :
  reaches_fallback rev h u videoId ->
  dump_json h u = inr info ->
  fst (download h u (tempFile h) (files w)) = None ->
  transcriptions_create h (tempFile h) = inr t ->
  String.length t < 50 ->
  fst (POST rev h (Some u) w)
  = Returns (json (ErrorBody "Whisper transcription failed: Whisper transcription was empty or too short") 500) /\
  tempFile h ∉ files (snd (POST rev h (Some u) w)).
Proof.
  intros Hr Hi Hd Ht Hlen.
  rewrite (POST_fallback_run rev h u videoId w Hr), Hi. cbv zeta.
  rewrite Hd, Ht. cbn [fst snd files].
  apply Nat.ltb_lt in Hlen. rewrite Hlen, orb_true_r.
  split; [now destruct rev | apply cleaned_up_without].
Qed.

Lemma short_transcript_example :
  (reaches_fallback Later (Demo.fallback_host (inr "Thanks for watching."))
     Demo.watch_url "abc12345678" /\
   String.length "Thanks for watching." < 50) /\
  fst (POST Later (Demo.fallback_host (inr "Thanks for watching."))
         (Some Demo.watch_url) Demo.start)
  = Returns (json (ErrorBody "Whisper transcription failed: Whisper transcription was empty or too short") 500) /\
  tempFile (Demo.fallback_host (inr "Thanks for watching."))
  ∉ files (snd (POST Later (Demo.fallback_host (inr "Thanks for watching."))
                  (Some Demo.watch_url) Demo.start)).
Proof.
  assert (Hr : reaches_fallback Later (Demo.fallback_host (inr "Thanks for watching."))
                 Demo.watch_url "abc12345678") by demo_reaches.
  assert (Hl : String.length "Thanks for watching." < 50) by (cbn; lia).
  split; [now split|].
  exact (short_transcript_rejected Later _ Demo.watch_url "abc12345678" Demo.start
           Demo.info "Thanks for watching." Hr eq_refl eq_refl eq_refl Hl).
Defined.

(** The configuration checks come in a fixed order.  Without a credential
    the route answers 500 after the request for the captions alone, whether
    the download utility is installed or not; with a credential that passes
    and no utility it answers 500 after having searched for the utility,
    and nothing else is called. *)
Theorem configuration_checks_in_order :
  (forall rev h u videoId w,
      u <> EmptyString -> extractVideoId u = Some videoId ->
      Spec.native_text h videoId = None ->
      truthy (OPENAI_API_KEY h) = false ->
      POST rev h (Some u) w =
      (Returns (json (ErrorBody (missing_key_message rev)) 500),
       Spec.after w [CallFetchTranscript videoId])) /\
  (forall rev h u videoId w,
      u <> EmptyString -> extractVideoId u = Some videoId ->
      Spec.native_text h videoId = None ->
      truthy (OPENAI_API_KEY h) = true ->
      (rev = Earlier \/ Spec.malformed_credential (OPENAI_API_KEY h) = false) ->
      yt_dlp_installed h = false ->
      POST rev h (Some u) w =
      (Returns (json (ErrorBody missing_yt_dlp_message) 500),
       Spec.after w [CallFetchTranscript videoId; CallWhich])).
Proof.
  split.
  - intros rev h u videoId w Hu Hid Hn Hk.
    rewrite (POST_run rev h u videoId w Hu Hid), Hn. now apply fallback_no_key.
  - intros rev h u videoId w Hu Hid Hn Hk Hm Hy.
    rewrite (POST_run rev h u videoId w Hu Hid), Hn.
    rewrite (fallback_attempt rev h u _ Hk Hm), Hy.
    unfold Spec.after. cbn [files calls]. now rewrite <- List.app_assoc.
Qed.

Lemma configuration_checks_example :
  POST Earlier
    (Demo.host None (inl Demo.no_captions) false (inr Demo.info) None
       (inr Demo.spaced_speech))
    (Some Demo.watch_url) Demo.start
  = (Returns (json (ErrorBody (missing_key_message Earlier)) 500),
     Spec.after Demo.start [CallFetchTranscript "abc12345678"]) /\
  POST Later
    (Demo.host (Some Demo.good_key) (inl Demo.no_captions) false (inr Demo.info)
       None (inr Demo.spaced_speech))
    (Some Demo.watch_url) Demo.start
  = (Returns (json (ErrorBody missing_yt_dlp_message) 500),
     Spec.after Demo.start [CallFetchTranscript "abc12345678"; CallWhich]).
Proof.
  split.
  - apply (proj1 configuration_checks_in_order Earlier
             (Demo.host None (inl Demo.no_captions) false (inr Demo.info) None
                (inr Demo.spaced_speech))
             Demo.watch_url "abc12345678" Demo.start);
      [discriminate | reflexivity | reflexivity | reflexivity].
  - apply (proj2 configuration_checks_in_order Later
             (Demo.host (Some Demo.good_key) (inl Demo.no_captions) false
                (inr Demo.info) None (inr Demo.spaced_speech))
             Demo.watch_url "abc12345678" Demo.start);
      [discriminate | reflexivity | reflexivity | reflexivity
      | right; reflexivity | reflexivity].
Defined.

(** Whatever identifier the extractor returns is not empty, holds none of
    the characters [&], line feed, [?] and [#], and occurs in the input as
    it stands. *)
Theorem extractVideoId_part_of_input (url v : string) :
  extractVideoId url = Some v ->
  v <> EmptyString /\ all_chars id_char v = true /\ includes url v = true.
Proof.
  unfold extractVideoId. destruct (match_url url) as [v0|] eqn:E.
  - intros [= ->]. apply match_url_some in E
      as (pre & suf & -> & (m & rest & _ & -> & Hne & Hall & _) & _).
    repeat split; trivial. apply includes_iff.
    exists (pre +:+ m), rest. now rewrite !app_assoc.
  - unfold match_bare.
    destruct (Nat.eqb (String.length url) 11) eqn:L; cbn [andb]; [|discriminate].
    destruct (all_chars bare_char url) eqn:B; [|discriminate].
    intros [= <-]. repeat split.
    + intros ->. discriminate.
    + now apply Resolver.all_bare_all_id.
    + apply includes_self.
Qed.

Lemma extractVideoId_part_of_input_example :
  extractVideoId "https://www.youtube.com/embed/abc12345678?rel=0" = Some "abc12345678" /\
  "abc12345678" <> EmptyString /\
  all_chars id_char "abc12345678" = true /\
  includes "https://www.youtube.com/embed/abc12345678?rel=0" "abc12345678" = true.
Proof.
  split; [reflexivity|].
  exact (extractVideoId_part_of_input
           "https://www.youtube.com/embed/abc12345678?rel=0" "abc12345678" eq_refl).
Defined.

End ResolverMore.

(** * Further properties of the native text and of the word count *)

Module NormalizeMore.
Import Js YouTube StringFacts NormalizeFacts Notions Render.

Lemma words_spaceless (s : string) :
  Forall (fun w => spaceless w = true) (Spec.words s).
Proof.
  unfold spaceless. induction s as [|c s IH]; [constructor|].
  destruct (is_space c) eqn:Hc.
  - now rewrite words_skip.
  - destruct s as [|d s].
    + rewrite words_last by trivial. repeat constructor. simpl. now rewrite Hc.
    + destruct (is_space d) eqn:Hd.
      * rewrite words_end by trivial. constructor; [|exact IH]. simpl. now rewrite Hc.
      * destruct (words_extend c d s Hc Hd) as (w & ws & E & ->).
        rewrite E in IH. inversion IH; subst. constructor; [|trivial].
        simpl. now rewrite Hc.
Qed.

(** A word is its own only word. *)
Lemma words_of_word (w : string) :
  w <> "" -> spaceless w = true -> Spec.words w = [w].
Proof.
  unfold spaceless. induction w as [|c w IH]; [contradiction|]. intros _ H.
  simpl in H. apply andb_true_iff in H as [Hc Hw]. apply negb_true_iff in Hc.
  destruct w as [|d w]; [now apply words_last|].
  pose proof Hw as Hw'. simpl in Hw'. apply andb_true_iff in Hw' as [Hd _].
  apply negb_true_iff in Hd.
  destruct (words_extend c d w Hc Hd) as (x & xs & E & ->).
  rewrite IH in E by (trivial; discriminate). now injection E as <- <-.
Qed.

Lemma words_of_words (s : string) :
  flat_map Spec.words (Spec.words s) = Spec.words s.
Proof.
  pose proof (words_nonempty s) as Hn. pose proof (words_spaceless s) as Hs.
  induction (Spec.words s) as [|w ws IH]; [reflexivity|].
  inversion Hn; inversion Hs; subst. simpl.
  rewrite words_of_word by trivial. simpl. f_equal. now apply IH.
Qed.

Lemma flat_map_words_app (a b : list string) :
  flat_map Spec.words (a ++ b) = flat_map Spec.words a ++ flat_map Spec.words b.
Proof. apply flat_map_app. Qed.

Lemma words_of_all_words (parts : list string) :
  flat_map Spec.words (flat_map Spec.words parts) = flat_map Spec.words parts.
Proof.
  induction parts as [|p parts IH]; [reflexivity|]. simpl.
  now rewrite flat_map_words_app, words_of_words, IH.
Qed.

Lemma nativeTranscript_words (items : list TranscriptItem) :
  nativeTranscript items = join " " (flat_map Spec.words (map text items)).
Proof. unfold nativeTranscript. now rewrite trim_replace_ws, words_join. Qed.

Lemma words_nativeTranscript (items : list TranscriptItem) :
  Spec.words (nativeTranscript items) = flat_map Spec.words (map text items).
Proof. now rewrite nativeTranscript_words, words_join, words_of_all_words. Qed.

(** The native text is in normal form: collapsing its white space and
    trimming it changes nothing, it is its own words one space apart, and
    normalising it as a single fragment gives it back. *)
Theorem nativeTranscript_normal_form (items : list TranscriptItem) :
  trim (replace_ws (nativeTranscript items)) = nativeTranscript items /\
  join " " (Spec.words (nativeTranscript items)) = nativeTranscript items /\
  nativeTranscript [ {| text := nativeTranscript items |} ] = nativeTranscript items.
Proof.
  assert (H : join " " (Spec.words (nativeTranscript items)) = nativeTranscript items).
  { rewrite words_nativeTranscript. symmetry. apply nativeTranscript_words. }
  split; [|split].
  - now rewrite trim_replace_ws.
  - exact H.
  - rewrite (nativeTranscript_words [ _ ]). cbn [map text flat_map].
    now rewrite List.app_nil_r.
Qed.

Lemma split_unfold (sep c : ascii) (s : string) :
  split sep (String c s) =
  if Ascii.eqb c sep then EmptyString :: split sep s
  else match split sep s with
       | p :: ps => String c p :: ps
       | [] => [String c EmptyString]
       end.
Proof. reflexivity. Qed.

Lemma split_nonempty (sep : ascii) (s : string) : split sep s <> [].
Proof.
  induction s as [|c s IH]; [discriminate|]. rewrite split_unfold.
  destruct (Ascii.eqb c sep); [discriminate|].
  destruct (split sep s); [contradiction | discriminate].
Qed.

(** [s.split(sep)] has one piece more than [s] has separators. *)
Lemma split_length (sep : ascii) (s : string) :
  length (split sep s) = S (count_char sep s).
Proof.
  induction s as [|c s IH]; [reflexivity|]. rewrite split_unfold. simpl.
  destruct (Ascii.eqb c sep); simpl; [now rewrite IH|].
  pose proof (split_nonempty sep s) as Hn.
  destruct (split sep s); [contradiction|]. simpl in *. exact IH.
Qed.

Lemma split_word_then (sep : ascii) (a b : string) :
  count_char sep a = 0 ->
  split sep (a +:+ String sep b) = a :: split sep b.
Proof.
  intros Ha. induction a as [|c a IH].
  - rewrite app_nil_l, split_unfold. now rewrite Ascii.eqb_refl.
  - simpl in Ha. rewrite app_cons, split_unfold.
    destruct (Ascii.eqb c sep); [discriminate|]. now rewrite IH.
Qed.

Lemma split_word (sep : ascii) (a : string) :
  count_char sep a = 0 -> split sep a = [a].
Proof.
  intros Ha. induction a as [|c a IH]; [reflexivity|].
  simpl in Ha. rewrite split_unfold.
  destruct (Ascii.eqb c sep); [discriminate|]. now rewrite IH.
Qed.

Lemma spaceless_no_space (w : string) :
  spaceless w = true -> count_char " " w = 0.
Proof.
  unfold spaceless. induction w as [|c w IH]; [reflexivity|]. simpl.
  intros H. apply andb_true_iff in H as [Hc Hw]. rewrite (IH Hw).
  destruct (Ascii.eqb c " ") eqn:E; [|reflexivity].
  apply Ascii.eqb_eq in E. subst c. discriminate.
Qed.

(** Splitting at the spaces undoes the joining of words. *)
Lemma split_join_words (ws : list string) :
  ws <> [] -> Forall (fun w => spaceless w = true) ws ->
  split " " (join " " ws) = ws.
Proof.
  induction ws as [|w ws IH]; [contradiction|]. intros _ H.
  inversion H; subst. destruct ws as [|x ws].
  - simpl. now apply split_word, spaceless_no_space.
  - change (join " " (w :: x :: ws)) with (w +:+ String " " (join " " (x :: ws))).
    rewrite split_word_then by now apply spaceless_no_space.
    f_equal. now apply IH.
Qed.

Lemma flat_map_words_spaceless (parts : list string) :
  Forall (fun w => spaceless w = true) (flat_map Spec.words parts).
Proof.
  induction parts as [|p parts IH]; [constructor|]. simpl.
  apply Forall_app. split; [apply words_spaceless | exact IH].
Qed.

(** The count the pages print is the number of spaces plus one, whatever
    the text; for a native text that is not empty it is the number of words
    of the caption fragments. *)
Theorem word_count_of_transcripts :
  (forall text, word_count text = S (count_char " " text)) /\
  (forall items,
      nativeTranscript items <> EmptyString ->
      word_count (nativeTranscript items)
      = length (flat_map Spec.words (map text items))).
Proof.
  split.
  - intros t. apply split_length.
  - intros items Hne. unfold word_count. rewrite nativeTranscript_words in *.
    rewrite split_join_words; trivial.
    + intros E. rewrite E in Hne. now apply Hne.
    + apply flat_map_words_spaceless.
Qed.

(** Four words in two fragments with stray white space; and the text of
    the speech-to-text service with its doubled spaces, for which the count
    is not the number of words. *)
Lemma word_count_example :
  (nativeTranscript [ {| text := " one  two" |}; {| text := "three four " |} ]
   <> EmptyString /\
   word_count (nativeTranscript [ {| text := " one  two" |};
                                  {| text := "three four " |} ]) = 4) /\
  word_count "a  b" = 3.
Proof.
  assert (Hne : nativeTranscript [ {| text := " one  two" |};
                                   {| text := "three four " |} ] <> EmptyString)
    by discriminate.
  split; [split; [exact Hne|] |].
  - exact (proj2 word_count_of_transcripts
             [ {| text := " one  two" |}; {| text := "three four " |} ] Hne).
  - exact (proj1 word_count_of_transcripts "a  b").
Defined.

End NormalizeMore.

(** * Further properties of the pages *)

Module OrchestratorMore.
Import Js Eff Page Render.

Ltac run_page :=
  cbv beta iota zeta delta
    [bind ret throw try_catch try_finally of_result emit update
     axios_post_youtube axios_post_anthropic
     setProcessing setError setRawTranscript setCleanedTranscript
     setVideoTitle setUsedWhisper setCurrentStep setYoutubeUrl
     view events fst snd youtubeUrl processing rawTranscript
     cleanedTranscript videoTitle usedWhisper error currentStep].

(** The run in which both calls are fulfilled. *)
Lemma handleSubmit_fulfilled (net : Net) (w : World) (d : TranscriptData)
    (c : CleanData) :
  truthy (Some (trim (youtubeUrl (view w)))) = true ->
  post_youtube net (youtubeUrl (view w)) = inr d ->
  post_anthropic net (d_content d) cleaning_task = inr c ->
  handleSubmit net w =
  (Returns tt,
   {| view := {| youtubeUrl := youtubeUrl (view w); processing := false;
                 rawTranscript := d_content d; cleanedTranscript := d_result c;
                 videoTitle := d_title d; usedWhisper := whisper_flag d;
                 error := None; currentStep := "" |};
      events := events w ++
                [ Step "Fetching transcript..."; PostYoutube (youtubeUrl (view w));
                  Step "Cleaning transcript with AI...";
                  PostAnthropic (d_content d) cleaning_task;
                  Step "Complete!"; Step "" ] |}).
Proof.
  intros Hu Hd Hc. unfold handleSubmit. rewrite Hu. cbn [negb].
  destruct w as [[u p r cl t uw er st] ev]. cbn [view youtubeUrl events] in *.
  run_page. rewrite Hd. run_page. rewrite Hc. run_page.
  unfold whisper_flag. now rewrite <- !List.app_assoc.
Qed.

(** The run in which the second call is rejected. *)
Lemma handleSubmit_cleaner_rejected (net : Net) (w : World) (d : TranscriptData)
    (e : Thrown) :
  truthy (Some (trim (youtubeUrl (view w)))) = true ->
  post_youtube net (youtubeUrl (view w)) = inr d ->
  post_anthropic net (d_content d) cleaning_task = inl e ->
  handleSubmit net w =
  (Returns tt,
   {| view := {| youtubeUrl := youtubeUrl (view w); processing := false;
                 rawTranscript := d_content d; cleanedTranscript := None;
                 videoTitle := d_title d; usedWhisper := whisper_flag d;
                 error := Some (shown_error e); currentStep := "" |};
      events := events w ++
                [ Step "Fetching transcript..."; PostYoutube (youtubeUrl (view w));
                  Step "Cleaning transcript with AI...";
                  PostAnthropic (d_content d) cleaning_task; Step "" ] |}).
Proof.
  intros Hu Hd Hc. unfold handleSubmit. rewrite Hu. cbn [negb].
  destruct w as [[u p r cl t uw er st] ev]. cbn [view youtubeUrl events] in *.
  run_page. rewrite Hd. run_page. rewrite Hc. run_page.
  unfold shown_error, whisper_flag.
  destruct (e_response e); run_page; now rewrite <- !List.app_assoc.
Qed.

(** The submission of a blank input. *)
Lemma handleSubmit_blank (net : Net) (w : World) :
  truthy (Some (trim (youtubeUrl (view w)))) = false ->
  handleSubmit net w =
  (Returns tt,
   {| view := {| youtubeUrl := youtubeUrl (view w);
                 processing := processing (view w);
                 rawTranscript := rawTranscript (view w);
                 cleanedTranscript := cleanedTranscript (view w);
                 videoTitle := videoTitle (view w);
                 usedWhisper := usedWhisper (view w);
                 error := Some "Please enter a YouTube URL";
                 currentStep := currentStep (view w) |};
      events := events w |}).
Proof.
  intros Hu. unfold handleSubmit. rewrite Hu. cbn [negb]. reflexivity.
Qed.

(** When both calls are fulfilled the page keeps what they returned: the
    raw transcript, the title and the cleaned text, with no error, and the
    events of the run are the three steps with one call of each endpoint,
    the resolver first; the cleaner is sent the raw content as it came and
    the fixed instruction.  With a cleaned text the run ends in [Complete];
    when the cleaner's answer has no [result] the page is back in [Idle]
    without an error. *)
Theorem run_completes (net : Net) (w : World) (d : TranscriptData) (c : CleanData) :
  truthy (Some (trim (youtubeUrl (view w)))) = true ->
  post_youtube net (youtubeUrl (view w)) = inr d ->
  post_anthropic net (d_content d) cleaning_task = inr c ->
  fst (handleSubmit net w) = Returns tt /\
  rawTranscript (view (snd (handleSubmit net w))) = d_content d /\
  videoTitle (view (snd (handleSubmit net w))) = d_title d /\
  cleanedTranscript (view (snd (handleSubmit net w))) = d_result c /\
  error (view (snd (handleSubmit net w))) = None /\
  events (snd (handleSubmit net w))
  = events w ++
    [ Step "Fetching transcript..."; PostYoutube (youtubeUrl (view w));
      Step "Cleaning transcript with AI...";
      PostAnthropic (d_content d) cleaning_task;
      Step "Complete!"; Step "" ] /\
  phase (view (snd (handleSubmit net w)))
  = match d_result c with
    | Some _ => Complete
    | None => Idle
    end.
Proof.
  intros Hu Hd Hc. rewrite (handleSubmit_fulfilled net w d c Hu Hd Hc).
  cbn [fst snd view events rawTranscript videoTitle cleanedTranscript error].
  repeat split.
Qed.

Lemma run_completes_example :
  (truthy (Some (trim (youtubeUrl (view (typed Demo.watch_url))))) = true) /\
  phase (view (snd (handleSubmit
                      {| post_youtube := fun _ =>
                           inr {| d_content := Some "raw  text";
                                  d_title := Some "A talk";
                                  d_usedWhisper := None |};
                         post_anthropic := fun _ _ =>
                           inr {| d_result := Some "An article." |} |}
                      (typed Demo.watch_url)))) = Complete.
Proof.
  split; [reflexivity|].
  exact (proj2 (proj2 (proj2 (proj2 (proj2 (proj2
           (run_completes
              {| post_youtube := fun _ =>
                   inr {| d_content := Some "raw  text"; d_title := Some "A talk";
                          d_usedWhisper := None |};
                 post_anthropic := fun _ _ =>
                   inr {| d_result := Some "An article." |} |}
              (typed Demo.watch_url)
              {| d_content := Some "raw  text"; d_title := Some "A talk";
                 d_usedWhisper := None |}
              {| d_result := Some "An article." |}
              eq_refl eq_refl eq_refl))))))).
Defined.



(** Whatever the two endpoints do, [handleSubmit] returns without throwing
    and leaves the typed locator alone.  A blank locator makes no call and
    clears nothing: only the error changes.  Every other run ends with
    [processing] off and the step label empty, and it calls the cleaner
    exactly when the resolver's call was fulfilled. *)
Theorem every_run_settles (net : Net) (w : World) :
  fst (handleSubmit net w) = Returns tt /\
  youtubeUrl (view (snd (handleSubmit net w))) = youtubeUrl (view w) /\
  cleaner_called (events (snd (handleSubmit net w)))
  = cleaner_called (events w)
    || (truthy (Some (trim (youtubeUrl (view w))))
        && fulfilled (post_youtube net (youtubeUrl (view w)))) /\
  if truthy (Some (trim (youtubeUrl (view w)))) then
    processing (view (snd (handleSubmit net w))) = false /\
    currentStep (view (snd (handleSubmit net w))) = EmptyString /\
    submit_label (view (snd (handleSubmit net w))) = "Extract Transcript"
  else
    events (snd (handleSubmit net w)) = events w /\
    error (view (snd (handleSubmit net w))) = Some "Please enter a YouTube URL" /\
    rawTranscript (view (snd (handleSubmit net w))) = rawTranscript (view w) /\
    cleanedTranscript (view (snd (handleSubmit net w))) = cleanedTranscript (view w) /\
    processing (view (snd (handleSubmit net w))) = processing (view w).
Proof.
  destruct (truthy (Some (trim (youtubeUrl (view w))))) eqn:Hu.
  - destruct (post_youtube net (youtubeUrl (view w))) as [e|d] eqn:Hd.
    + rewrite (Orchestrator.handleSubmit_rejected net w e Hu Hd).
      cbn [fst snd view events youtubeUrl processing currentStep fulfilled andb].
      unfold cleaner_called, submit_label. rewrite existsb_app. cbn.
      rewrite !orb_false_r. repeat split.
    + destruct (post_anthropic net (d_content d) cleaning_task) as [e|c] eqn:Hc.
      * rewrite (handleSubmit_cleaner_rejected net w d e Hu Hd Hc).
        cbn [fst snd view events youtubeUrl processing currentStep fulfilled andb].
        unfold cleaner_called, submit_label. rewrite existsb_app. cbn.
        rewrite !orb_true_r. repeat split.
      * rewrite (handleSubmit_fulfilled net w d c Hu Hd Hc).
        cbn [fst snd view events youtubeUrl processing currentStep fulfilled andb].
        unfold cleaner_called, submit_label. rewrite existsb_app. cbn.
        rewrite !orb_true_r. repeat split.
  - rewrite (handleSubmit_blank net w Hu).
    cbn [fst snd view events youtubeUrl processing rawTranscript
         cleanedTranscript error andb].
    rewrite orb_false_r. repeat split.
Qed.

End OrchestratorMore.

(** * The second page: copying and resetting *)

Module SecondPage.
Import Js Eff Page Render Page2.

Ltac run_page2 :=
  cbv beta iota zeta delta
    [bind ret throw try_catch try_finally of_result emit update
     setProcessing setError setRawTranscript setCleanedTranscript
     setVideoTitle setUsedWhisper setCurrentStep setYoutubeUrl
     view events fst snd youtubeUrl processing rawTranscript
     cleanedTranscript videoTitle usedWhisper error currentStep
     on_base setCopied setShowRawTranscript writeText setTimeout fire
     Page.handleReset handleReset
     view2 events2 clipboard timers base copied showRawTranscript].

(** A copy that goes through. *)
Lemma handleCopy_written (refused : string -> option Thrown) (w : World2)
    (text : string) :
  cleanedTranscript (base (view2 w)) = Some text ->
  text <> EmptyString ->
  refused text = None ->
  handleCopy refused w =
  (Returns tt,
   {| view2 := {| base := base (view2 w); copied := true;
                  showRawTranscript := showRawTranscript (view2 w) |};
      events2 := events2 w;
      clipboard := Some text;
      timers := timers w ++ [2000%Z] |}).
Proof.
  intros Hc Hne Hr. unfold handleCopy. rewrite Hc. unfold truthy.
  apply String.eqb_neq in Hne. rewrite Hne. cbn [negb].
  destruct w as [[b cp sh] ev cl tm]. run_page2. now rewrite Hr.
Qed.

(** [handleCopy] copies the cleaned text and nothing else.  Without a
    cleaned text it does nothing.  When the browser accepts the write, the
    clipboard holds the cleaned text as it is shown, the flag [copied] is
    set, and one timer of 2000 ms is added.  When the browser refuses, the
    error is swallowed: the page and the clipboard are as before and no
    timer is set. *)
Theorem handleCopy_copies_cleaned_text :
  (forall refused w,
      truthy (cleanedTranscript (base (view2 w))) = false ->
      handleCopy refused w = (Returns tt, w)) /\
  (forall refused w text,
      cleanedTranscript (base (view2 w)) = Some text ->
      text <> EmptyString -> refused text = None ->
      fst (handleCopy refused w) = Returns tt /\
      clipboard (snd (handleCopy refused w)) = Some text /\
      copied (view2 (snd (handleCopy refused w))) = true /\
      timers (snd (handleCopy refused w)) = timers w ++ [2000%Z] /\
      base (view2 (snd (handleCopy refused w))) = base (view2 w)) /\
  (forall refused w text e,
      cleanedTranscript (base (view2 w)) = Some text ->
      refused text = Some e ->
      handleCopy refused w = (Returns tt, w)).
Proof.
  split; [|split].
  - intros refused w H. unfold handleCopy.
    destruct (cleanedTranscript (base (view2 w))) as [t|]; [|reflexivity].
    now rewrite H.
  - intros refused w text Hc Hne Hr.
    rewrite (handleCopy_written refused w text Hc Hne Hr).
    cbn [fst snd clipboard view2 copied timers base]. repeat split.
  - intros refused w text e Hc Hr. unfold handleCopy. rewrite Hc.
    destruct (negb (truthy (Some text))); [reflexivity|].
    destruct w as [[b cp sh] ev cl tm]. run_page2. now rewrite Hr.
Qed.

Lemma handleCopy_example :
  (cleanedTranscript (base (view2 (showing " An  article. "))) = Some " An  article. " /\
   " An  article. " <> EmptyString) /\
  fst (handleCopy (fun _ => None) (showing " An  article. ")) = Returns tt /\
  clipboard (snd (handleCopy (fun _ => None) (showing " An  article. ")))
  = Some " An  article. " /\
  copied (view2 (snd (handleCopy (fun _ => None) (showing " An  article. ")))) = true /\
  timers (snd (handleCopy (fun _ => None) (showing " An  article. ")))
  = timers (showing " An  article. ") ++ [2000%Z] /\
  base (view2 (snd (handleCopy (fun _ => None) (showing " An  article. "))))
  = base (view2 (showing " An  article. ")).
Proof.
  assert (Hne : " An  article. " <> EmptyString) by discriminate.
  split; [split; [reflexivity | exact Hne]|].
  exact (proj1 (proj2 handleCopy_copies_cleaned_text) (fun _ => None)
           (showing " An  article. ") " An  article. " eq_refl Hne eq_refl).
Defined.

(** The timers of [handleCopy] are never cancelled: after two copies in a
    row, the first timer to fire clears the flag [copied] while the timer
    of the second copy is still pending. *)
Theorem first_timer_clears_second_copy (refused : string -> option Thrown)
    (w : World2) (text : string) :
  cleanedTranscript (base (view2 w)) = Some text ->
  text <> EmptyString -> refused text = None ->
  timers w = [] ->
  copied (view2 (snd (handleCopy refused (snd (handleCopy refused w))))) = true /\
  copied (view2 (snd (fire (snd (handleCopy refused
                                   (snd (handleCopy refused w))))))) = false /\
  timers (snd (fire (snd (handleCopy refused (snd (handleCopy refused w))))))
  = [2000%Z].
Proof.
  intros Hc Hne Hr Ht.
  rewrite (handleCopy_written refused w text Hc Hne Hr). cbn [snd].
  rewrite (handleCopy_written refused _ text) by (trivial; exact Hc).
  cbn [snd view2 base showRawTranscript events2 timers copied].
  rewrite Ht. split; [reflexivity|]. split; reflexivity.
Qed.

Lemma first_timer_example :
  (cleanedTranscript (base (view2 (showing "An article."))) = Some "An article." /\
   "An article." <> EmptyString /\ timers (showing "An article.") = []) /\
  copied (view2 (snd (fire (snd (handleCopy (fun _ => None)
                                   (snd (handleCopy (fun _ => None)
                                           (showing "An article."))))))))
  = false /\
  timers (snd (fire (snd (handleCopy (fun _ => None)
                            (snd (handleCopy (fun _ => None)
                                    (showing "An article.")))))))
  = [2000%Z].
Proof.
  assert (Hne : "An article." <> EmptyString) by discriminate.
  split; [repeat split; exact Hne|].
  exact (proj2 (first_timer_clears_second_copy (fun _ => None)
                  (showing "An article.") "An article."
                  eq_refl Hne eq_refl eq_refl)).
Defined.

(** [handleReset] of the second page empties the locator, the results, the
    error and the step label and folds the raw transcript away, so that the
    reset button is not shown any more.  It does not end a run in flight
    ([processing] stays as it was), and it leaves the flag [copied], the
    clipboard and the pending timers alone. *)
Theorem reset_clears_results (w : World2) :
  fst (handleReset w) = Returns tt /\
  base (view2 (snd (handleReset w)))
  = {| youtubeUrl := ""; processing := processing (base (view2 w));
       rawTranscript := None; cleanedTranscript := None; videoTitle := None;
       usedWhisper := false; error := None; currentStep := "" |} /\
  showRawTranscript (view2 (snd (handleReset w))) = false /\
  reset_shown (base (view2 (snd (handleReset w)))) = false /\
  copied (view2 (snd (handleReset w))) = copied (view2 w) /\
  clipboard (snd (handleReset w)) = clipboard w /\
  timers (snd (handleReset w)) = timers w.
Proof.
  destruct w as [[[u p r c t uw er st] cp sh] ev cl tm].
  unfold reset_shown. run_page2. repeat split.
Qed.

End SecondPage.

(** * Further properties of the text cleaner *)

Module CleanerMore.
Import Js Eff Anthropic.

(** What the cleaner makes of the remote service's answers: an error the
    service throws is answered with status 500 and its message (or a fixed
    message when it is not an [Error]); a message without any content block
    is answered with status 500 as well; and a message whose first block is
    not a text block is answered with status 200 and no [result]. *)
Theorem cleaner_remote_outcomes :
  (forall h c k w e,
      truthy (Some c) = true -> truthy (Some k) = true ->
      truthy (ANTHROPIC_API_KEY h) = true ->
      messages_create h (request c k) = inl e ->
      POST h (Some c) (Some k) w =
      (Returns (json (ErrorBody (if is_Error e then e_message e
                                 else "Failed to generate content")) 500),
       {| sent := sent w ++ [request c k] |})) /\
  (forall h c k w,
      truthy (Some c) = true -> truthy (Some k) = true ->
      truthy (ANTHROPIC_API_KEY h) = true ->
      messages_create h (request c k) = inr [] ->
      exists msg,
        POST h (Some c) (Some k) w =
        (Returns (json (ErrorBody msg) 500), {| sent := sent w ++ [request c k] |})) /\
  (forall h c k w rest,
      truthy (Some c) = true -> truthy (Some k) = true ->
      truthy (ANTHROPIC_API_KEY h) = true ->
      messages_create h (request c k) = inr (OtherBlock :: rest) ->
      POST h (Some c) (Some k) w =
      (Returns (json (ResultBody None) 200), {| sent := sent w ++ [request c k] |})).
Proof.
  split; [|split].
  - intros h c k w e Hc Hk Hkey Hm. unfold POST. rewrite Hc, Hk, Hkey.
    cbn [negb orb]. unfold try_catch, bind, create. fold (request c k).
    now rewrite Hm.
  - intros h c k w Hc Hk Hkey Hm. unfold POST. rewrite Hc, Hk, Hkey.
    cbn [negb orb]. unfold try_catch, bind, create. fold (request c k).
    rewrite Hm. eexists. reflexivity.
  - intros h c k w rest Hc Hk Hkey Hm. unfold POST. rewrite Hc, Hk, Hkey.
    cbn [negb orb]. unfold try_catch, bind, create. fold (request c k).
    now rewrite Hm.
Qed.

Lemma cleaner_remote_outcomes_example :
  POST {| ANTHROPIC_API_KEY := Some "sk-ant-key";
          messages_create := fun _ => inl (new_Error "529 Overloaded") |}
       (Some "raw transcript") (Some "clean it") {| sent := [] |}
  = (Returns (json (ErrorBody "529 Overloaded") 500),
     {| sent := [] ++ [request "raw transcript" "clean it"] |}) /\
  POST {| ANTHROPIC_API_KEY := Some "sk-ant-key";
          messages_create := fun _ => inr [OtherBlock; TextBlock "An article."] |}
       (Some "raw transcript") (Some "clean it") {| sent := [] |}
  = (Returns (json (ResultBody None) 200),
     {| sent := [] ++ [request "raw transcript" "clean it"] |}).
Proof.
  split.
  - exact (proj1 cleaner_remote_outcomes
             {| ANTHROPIC_API_KEY := Some "sk-ant-key";
                messages_create := fun _ => inl (new_Error "529 Overloaded") |}
             "raw transcript" "clean it" {| sent := [] |}
             (new_Error "529 Overloaded") eq_refl eq_refl eq_refl eq_refl).
  - exact (proj2 (proj2 cleaner_remote_outcomes)
             {| ANTHROPIC_API_KEY := Some "sk-ant-key";
                messages_create := fun _ => inr [OtherBlock; TextBlock "An article."] |}
             "raw transcript" "clean it" {| sent := [] |} [TextBlock "An article."]
             eq_refl eq_refl eq_refl eq_refl).
Defined.

End CleanerMore.

(** * The page with both routes behind it *)

Module EndToEnd.
Import Js Eff Page Render Wire StringFacts NormalizeFacts.

Lemma trim_truthy_nonempty (u : string) :
  truthy (Some (trim u)) = true -> u <> EmptyString.
Proof. intros H ->. discriminate. Qed.

Lemma long_nonempty (t : string) : 50 <= String.length t -> truthy (Some t) = true.
Proof. destruct t; simpl; [lia | reflexivity]. Qed.

(** A locator whose captions the library returns, and a text-generation
    service that answers with a text block: the page ends in [Complete]
    and shows the joined captions as the raw transcript, the placeholder
    title, the native flag, and the remote text as the cleaned text. *)
Theorem native_run_end_to_end (rev : YouTube.Revision) (yh : YouTube.Host)
    (yw : YouTube.World) (ah : Anthropic.Host) (aw : Anthropic.World) (w : World)
    (videoId : string) (i : YouTube.TranscriptItem) (l : list YouTube.TranscriptItem)
    (t : string) (rest : list Anthropic.ContentBlock) :
  truthy (Some (trim (youtubeUrl (view w)))) = true ->
  YouTube.extractVideoId (youtubeUrl (view w)) = Some videoId ->
  YouTube.fetchTranscript yh videoId = inr (Some (i :: l)) ->
  50 <= String.length (YouTube.nativeTranscript (i :: l)) ->
  truthy (Anthropic.ANTHROPIC_API_KEY ah) = true ->
  Anthropic.messages_create ah
    (Anthropic.request (YouTube.nativeTranscript (i :: l)) cleaning_task)
  = inr (Anthropic.TextBlock t :: rest) ->
  view (snd (handleSubmit (wired rev yh yw ah aw) w))
  = {| youtubeUrl := youtubeUrl (view w); processing := false;
       rawTranscript := Some (YouTube.nativeTranscript (i :: l));
       cleanedTranscript := Some t;
       videoTitle := Some ("YouTube Video " +:+ videoId);
       usedWhisper := false; error := None; currentStep := "" |} /\
  phase (view (snd (handleSubmit (wired rev yh yw ah aw) w))) = Complete.
Proof.
  intros Hu Hid Hf Hlen Hkey Hm.
  pose proof (trim_truthy_nonempty _ Hu) as Hne.
  assert (Hy : post_youtube (wired rev yh yw ah aw) (youtubeUrl (view w))
               = inr {| d_content := Some (YouTube.nativeTranscript (i :: l));
                        d_title := Some ("YouTube Video " +:+ videoId);
                        d_usedWhisper := Some false |}).
  { cbn [wired post_youtube]. unfold resolver_endpoint.
    rewrite (ResolverFacts.POST_run rev yh _ videoId yw Hne Hid).
    unfold Spec.native_text. rewrite Hf. cbv zeta.
    apply Nat.leb_le in Hlen. rewrite Hlen. reflexivity. }
  assert (Hc : post_anthropic (wired rev yh yw ah aw)
                 (Some (YouTube.nativeTranscript (i :: l))) cleaning_task
               = inr {| d_result := Some t |}).
  { cbn [wired post_anthropic]. unfold cleaner_endpoint, Anthropic.POST.
    rewrite (long_nonempty _ Hlen), Hkey.
    change (truthy (Some cleaning_task)) with true. cbn [negb orb].
    unfold try_catch, bind, Anthropic.create.
    fold (Anthropic.request (YouTube.nativeTranscript (i :: l)) cleaning_task).
    now rewrite Hm. }
  rewrite (OrchestratorMore.handleSubmit_fulfilled _ w _ _ Hu Hy Hc).
  cbn [snd view]. split; reflexivity.
Qed.

Lemma native_run_example :
  (truthy (Some (trim (youtubeUrl (view (typed Demo.watch_url))))) = true /\
   YouTube.extractVideoId (youtubeUrl (view (typed Demo.watch_url)))
   = Some "abc12345678" /\
   50 <= String.length
           (YouTube.nativeTranscript [ {| YouTube.text := Demo.long_caption |} ])) /\
  phase (view (snd (handleSubmit
                      (wired YouTube.Later (Demo.native_host Demo.long_caption)
                         Demo.start
                         {| Anthropic.ANTHROPIC_API_KEY := Some "sk-ant-key";
                            Anthropic.messages_create := fun _ =>
                              inr [Anthropic.TextBlock "An article."] |}
                         {| Anthropic.sent := [] |})
                      (typed Demo.watch_url)))) = Complete.
Proof.
  assert (Hlen : 50 <= String.length
                         (YouTube.nativeTranscript
                            [ {| YouTube.text := Demo.long_caption |} ]))
    by (vm_compute; lia).
  split; [repeat split; exact Hlen|].
  exact (proj2 (native_run_end_to_end YouTube.Later
                  (Demo.native_host Demo.long_caption) Demo.start
                  {| Anthropic.ANTHROPIC_API_KEY := Some "sk-ant-key";
                     Anthropic.messages_create := fun _ =>
                       inr [Anthropic.TextBlock "An article."] |}
                  {| Anthropic.sent := [] |} (typed Demo.watch_url)
                  "abc12345678" {| YouTube.text := Demo.long_caption |} []
                  "An article." [] eq_refl eq_refl eq_refl Hlen eq_refl eq_refl)).
Defined.

End EndToEnd.

(** * White space around a bare identifier *)

Module Padding.
Import Js Eff Page Wire Notions StringFacts.

Lemma all_chars_app (f : ascii -> bool) (a b : string) :
  all_chars f (a +:+ b) = all_chars f a && all_chars f b.
Proof.
  induction a as [|c a IH]; [now rewrite app_nil_l|].
  rewrite app_cons. simpl. rewrite IH. now rewrite andb_assoc.
Qed.

Lemma all_chars_weaken (f g : ascii -> bool) (s : string) :
  (forall c, f c = true -> g c = true) ->
  all_chars f s = true -> all_chars g s = true.
Proof.
  intros Hfg. induction s as [|c s IH]; simpl; [trivial|].
  intros [Hc Hs]%andb_prop. rewrite (Hfg c Hc). now apply IH.
Qed.

Lemma bare_not_space (c : ascii) : YouTube.bare_char c = true -> is_space c = false.
Proof.
  destruct c as [b0 b1 b2 b3 b4 b5 b6 b7].
  destruct b0, b1, b2, b3, b4, b5, b6, b7; vm_compute; congruence.
Qed.

Lemma bare_not_slash (c : ascii) : YouTube.bare_char c = true -> not_slash c = true.
Proof.
  unfold not_slash. destruct (Ascii.eqb_spec c "/") as [->|]; [|reflexivity].
  vm_compute. congruence.
Qed.

Lemma space_not_slash (c : ascii) : is_space c = true -> not_slash c = true.
Proof.
  unfold not_slash. destruct (Ascii.eqb_spec c "/") as [->|]; [|reflexivity].
  vm_compute. congruence.
Qed.

(** Every marker of the first pattern contains a slash. *)
Lemma first_capture_needs_slash (s : string) :
  all_chars not_slash s = true -> YouTube.first_capture s YouTube.markers = None.
Proof.
  intros Hs. unfold YouTube.markers, YouTube.first_capture, YouTube.capture_after.
  repeat match goal with
         | |- context [strip_prefix ?m s] =>
             let E := fresh "E" in
             destruct (strip_prefix m s) eqn:E;
             [ apply strip_prefix_inv in E; rewrite E, all_chars_app in Hs;
               discriminate Hs | ]
         end.
  reflexivity.
Qed.

Lemma match_url_needs_slash (s : string) :
  all_chars not_slash s = true -> YouTube.match_url s = None.
Proof.
  induction s as [|c s IH]; intros Hs; rewrite ExtractFacts.match_url_unfold,
    (first_capture_needs_slash _ Hs); [reflexivity|].
  simpl in Hs. apply andb_prop in Hs as [_ Hs]. now apply IH.
Qed.

Lemma drop_while_through (f : ascii -> bool) (a s : string) :
  all_chars f a = true -> drop_while f (a +:+ s) = drop_while f s.
Proof.
  induction a as [|c a IH]; [now rewrite app_nil_l|].
  intros H. simpl in H. apply andb_prop in H as [Hc Ha].
  rewrite app_cons. cbn [drop_while]. rewrite Hc. now apply IH.
Qed.

(** A string that holds a character other than white space after leading
    white space is not blank. *)
Lemma trim_not_blank (a : string) (c : ascii) (s : string) :
  all_chars is_space a = true -> is_space c = false ->
  truthy (Some (trim (a +:+ String c s))) = true.
Proof.
  intros Ha Hc. unfold trim, trimStart. rewrite (drop_while_through _ _ _ Ha).
  simpl drop_while. rewrite Hc. now rewrite (NormalizeFacts.trimEnd_keep _ _ Hc).
Qed.

Lemma padded_length (a v b : string) :
  (a <> EmptyString \/ b <> EmptyString) -> String.length v = 11 ->
  Nat.eqb (String.length (a +:+ v +:+ b)) 11 = false.
Proof.
  intros Hab Hv. rewrite !app_length, Hv. apply Nat.eqb_neq.
  destruct Hab as [H|H]; [destruct a | destruct b]; try contradiction; simpl; lia.
Qed.

(** The page tests the trimmed locator for blankness and sends the locator
    as typed; the route's second pattern is anchored at both ends.  So an
    identifier the route accepts on its own is rejected, with status 400 and
    before any outside call, as soon as white space surrounds it, and the
    page ends the run with [Invalid YouTube URL] and no call of the
    cleaner. *)
Theorem padded_identifier_rejected (rev : YouTube.Revision) (yh : YouTube.Host)
    (yw : YouTube.World) (ah : Anthropic.Host) (aw : Anthropic.World) (w : World)
    (a v b : string) :
  youtubeUrl (view w) = a +:+ v +:+ b ->
  all_chars is_space a = true -> all_chars is_space b = true ->
  (a <> EmptyString \/ b <> EmptyString) ->
  String.length v = 11 -> all_chars YouTube.bare_char v = true ->
  YouTube.extractVideoId v = Some v /\
  YouTube.POST rev yh (Some (a +:+ v +:+ b)) yw
  = (Returns (YouTube.json (YouTube.ErrorBody "Invalid YouTube URL") 400), yw) /\
  handleSubmit (wired rev yh yw ah aw) w
  = (Returns tt,
     {| view := {| youtubeUrl := a +:+ v +:+ b; processing := false;
                   rawTranscript := None; cleanedTranscript := None;
                   videoTitle := None; usedWhisper := false;
                   error := Some "Invalid YouTube URL"; currentStep := "" |};
        events := events w ++ [ Step "Fetching transcript...";
                                PostYoutube (a +:+ v +:+ b); Step "" ] |}).
Proof.
  intros Hu Ha Hb Hab Hlen Hv.
  assert (Hvs : all_chars not_slash v = true)
    by (apply (all_chars_weaken _ _ _ bare_not_slash Hv)).
  assert (Hus : all_chars not_slash (a +:+ v +:+ b) = true).
  { rewrite !all_chars_app, Hvs,
      (all_chars_weaken _ _ _ space_not_slash Ha),
      (all_chars_weaken _ _ _ space_not_slash Hb). reflexivity. }
  assert (Hnone : YouTube.extractVideoId (a +:+ v +:+ b) = None).
  { unfold YouTube.extractVideoId, YouTube.match_bare.
    now rewrite (match_url_needs_slash _ Hus), (padded_length a v b Hab Hlen). }
  assert (Hpost : forall sw, YouTube.POST rev yh (Some (a +:+ v +:+ b)) sw
                  = (Returns (YouTube.json (YouTube.ErrorBody "Invalid YouTube URL") 400),
                     sw)).
  { intros sw. rewrite (ExtractFacts.POST_no_id rev yh _ sw Hnone).
    destruct v as [|c v']; [discriminate Hlen|].
    destruct a; [rewrite app_nil_l, app_cons | rewrite app_cons]; reflexivity. }
  split; [|split].
  - unfold YouTube.extractVideoId, YouTube.match_bare.
    now rewrite (match_url_needs_slash _ Hvs), Hlen, Hv.
  - apply Hpost.
  - assert (Ht : truthy (Some (trim (youtubeUrl (view w)))) = true).
    { rewrite Hu. destruct v as [|c v']; [discriminate Hlen|].
      rewrite app_cons. apply trim_not_blank; [exact Ha|].
      apply bare_not_space. simpl in Hv. now apply andb_prop in Hv as [Hc _]. }
    rewrite (Orchestrator.handleSubmit_rejected (wired rev yh yw ah aw) w
               {| is_Error := true; e_status := Some 400%Z;
                  e_code := Some "ERR_BAD_REQUEST";
                  e_message := "Request failed with status code 400";
                  e_response := Some (Some "Invalid YouTube URL") |} Ht).
    + now rewrite Hu.
    + rewrite Hu. cbn [wired post_youtube]. unfold resolver_endpoint.
      rewrite Hpost. reflexivity.
Qed.

Lemma padded_identifier_example :
  (youtubeUrl (view (typed " abc12345678")) = " " +:+ "abc12345678" +:+ "" /\
   all_chars is_space " " = true /\ all_chars is_space "" = true /\
   (" " <> EmptyString \/ "" <> EmptyString) /\
   String.length "abc12345678" = 11 /\
   all_chars YouTube.bare_char "abc12345678" = true) /\
  YouTube.extractVideoId "abc12345678" = Some "abc12345678" /\
  YouTube.POST YouTube.Later (Demo.native_host Demo.long_caption)
    (Some " abc12345678") Demo.start
  = (Returns (YouTube.json (YouTube.ErrorBody "Invalid YouTube URL") 400),
     Demo.start).
Proof.
  assert (Hne : " " <> EmptyString \/ "" <> EmptyString) by (left; discriminate).
  split; [repeat split; exact Hne|].
  pose proof (padded_identifier_rejected YouTube.Later
                (Demo.native_host Demo.long_caption) Demo.start
                {| Anthropic.ANTHROPIC_API_KEY := None;
                   Anthropic.messages_create := fun _ => inr [] |}
                {| Anthropic.sent := [] |} (typed " abc12345678")
                " " "abc12345678" "" eq_refl eq_refl eq_refl Hne eq_refl eq_refl)
    as (H1 & H2 & _).
  split; [exact H1 | exact H2].
Defined.

End Padding.

(** * The resolver from the request on *)

Module ResolverRequest.
Import Js Eff YouTube Http Handlers Reading Notions ResolverFacts ResolverRuns
       IncludesFacts.

Ltac run_request :=
  cbv beta iota zeta delta
    [youtube_POST anthropic_POST bind ret throw settle destructure
     request_json locator];
  cbn [request_json].

(** A request from which the handler reads a locator, or none, goes
    through the rest of the handler as [YouTube.POST] has it. *)
Lemma youtube_POST_read (rev : Revision) (h : Host) (request : Request)
    (url : option string) (w : World) :
  locator request = Some url ->
  youtube_POST rev h request w = POST rev h url w.
Proof.
  destruct request as [[e|body]]; unfold locator; cbn [request_json];
    [discriminate|].
  destruct body as [|b|x|s|items|members]; try discriminate;
    try (intros [= <-]; reflexivity).
  unfold youtube_POST, bind, settle, destructure, ret. cbn [request_json].
  destruct (member "url" members) as [[|b|x|u|items|ms]|];
    try discriminate; try (intros [= <-]; reflexivity).
  - destruct b; [discriminate | intros [= <-]; reflexivity].
  - destruct (truthy_value (Some (VNumber x)));
      [discriminate | intros [= <-]; reflexivity].
  - intros [= <-]. destruct u; reflexivity.
Qed.

(** Every other request makes the handler throw at once. *)
Lemma youtube_POST_unread (rev : Revision) (h : Host) (request : Request) (w : World) :
  locator request = None ->
  exists e, youtube_POST rev h request w = (Throws e, w).
Proof.
  destruct request as [[e|body]]; unfold locator; cbn [request_json].
  { intros _. now exists e. }
  destruct body as [|b|x|s|items|members]; try discriminate.
  { intros _. eexists. reflexivity. }
  unfold youtube_POST, bind, settle, destructure, ret, throw. cbn [request_json].
  destruct (member "url" members) as [[|b|x|u|items|ms]|];
    try discriminate; try (intros _; eexists; reflexivity).
  - destruct b; [intros _; eexists; reflexivity | discriminate].
  - destruct (truthy_value (Some (VNumber x)));
      [intros _; eexists; reflexivity | discriminate].
Qed.

(** The page's request reads as the locator it carries. *)
Lemma locator_posted (u : string) :
  locator (posted [("url", u)]) = Some (Some u).
Proof. reflexivity. Qed.

(** The fourth test of the later handler, for [Incorrect API key], never
    decides: such a message mentions the API key already. *)
Lemma auth_like_rejected (e : Thrown) : auth_like e = rejected_credential e.
Proof.
  unfold auth_like, rejected_credential.
  destruct (includes (e_message e) "Incorrect API key") eqn:I;
    [|now rewrite orb_false_r].
  change "Incorrect API key" with ("Incorrect " +:+ "API key" +:+ "") in I.
  apply includes_part in I. rewrite I. now rewrite !orb_true_r.
Qed.

Lemma whisperFailure_status (rev : Revision) (e : Thrown) :
  status (whisperFailure rev e) = failure_status rev e.
Proof.
  unfold failure_status, whisperFailure. destruct rev; [reflexivity|].
  rewrite <- auth_like_rejected. change (rate_limited e) with (rate_like e).
  destruct (is_Error e); [|reflexivity]. cbn [andb].
  destruct (auth_like e); [reflexivity|].
  destruct (rate_like e); [reflexivity|].
  now destruct (includes (e_message e) "OPENAI_API_KEY is not set").
Qed.

(** C6, as the code has it.  A request from which the handler cannot read
    a locator (a body that is not JSON, the body [null], a [url] that is
    truthy and not a string) makes it throw at once, without a payload of
    its own.  Every other request is answered, and an answer that is not a
    transcript is an error payload: with status 400 when there is no usable
    locator; with status 500 when the fallback cannot start for lack of a
    credential, a malformed credential (later revision) or a missing
    download utility; and otherwise with the status of the failure [e] of
    the fallback, which is 500 throughout in the earlier revision and, in
    the later one, 401 for an [Error] with status 401, code
    [invalid_api_key] or a message that mentions the API key, else 429 for
    an [Error] with status 429 or a message that mentions the rate limit,
    else 500.  In particular this is the answer when the speech-to-text
    service itself rejects the request with [e]. *)
Theorem resolver_failure_statuses :
  (forall rev h request w,
      match locator request with
      | None => exists e, youtube_POST rev h request w = (Throws e, w)
      | Some url =>
          exists resp w',
            youtube_POST rev h request w = (Returns resp, w') /\
            match body resp with
            | TranscriptBody _ _ _ => status resp = 200%Z
            | ErrorBody _ =>
                (Spec.bad_input url /\ status resp = 400%Z) \/
                (exists u videoId,
                    url = Some u /\ extractVideoId u = Some videoId /\
                    Spec.native_text h videoId = None /\
                    ((Spec.configuration_failure rev h /\ status resp = 500%Z) \/
                     exists e,
                       fst (whisperStep rev h u (Spec.at_fallback w videoId))
                       = Throws e /\
                       status resp = failure_status rev e))
            end
      end) /\
  (forall rev h request u videoId w info e,
      locator request = Some (Some u) ->
      reaches_fallback rev h u videoId ->
      dump_json h u = inr info ->
      fst (download h u (tempFile h) (files w)) = None ->
      transcriptions_create h (tempFile h) = inl e ->
      exists msg,
        fst (youtube_POST rev h request w)
        = Returns (json (ErrorBody msg) (failure_status rev e))).
Proof.
  split.
  - intros rev h request w.
    destruct (locator request) as [url|] eqn:L;
      [|now apply youtube_POST_unread].
    rewrite (youtube_POST_read rev h request url w L).
    destruct (POST_exits rev h url w) as (resp & w' & -> & Hexit).
    exists resp, w'. split; [reflexivity|].
    inversion Hexit; subst; cbn [json body status]; trivial.
    + now left.
    + right. exists u, videoId. repeat split; trivial. left.
      split; [now left | reflexivity].
    + right. exists u, videoId. repeat split; trivial. left.
      split; [right; left; now split | reflexivity].
    + right. exists u, videoId. repeat split; trivial. left.
      split; [now right; right | reflexivity].
    + destruct (whisperFailure_error rev e) as (msg & Hmsg).
      pose proof (whisperFailure_status rev e) as Hst.
      rewrite Hmsg in *. cbn [body status json] in *.
      right. exists u, videoId. repeat split; trivial. right. exists e.
      split; [|exact Hst].
      match goal with H : whisperStep _ _ _ _ = _ |- _ => now rewrite H end.
  - intros rev h request u videoId w info e L Hr Hi Hd Ht.
    rewrite (youtube_POST_read rev h request _ w L),
      (POST_fallback_run rev h u videoId w Hr), Hi.
    cbv zeta. rewrite Hd, Ht. cbn [fst].
    destruct (whisperFailure_error rev e) as (msg & Hmsg).
    pose proof (whisperFailure_status rev e) as Hst.
    exists msg. destruct (whisperFailure rev e) as [b st].
    cbn [body status] in *. unfold json. now subst.
Qed.

(** A request whose [url] is the number 12345678901 is not answered; and
    the later revision answers a credential that the speech-to-text service
    rejects with status 401. *)
Lemma resolver_failure_statuses_example :
  (exists e,
      youtube_POST Later (Demo.native_host Demo.long_caption)
        {| request_json := inr (VObject [("url", VNumber (S754_finite false 6472691299647488 (-19)))]) |}
        Demo.start
      = (Throws e, Demo.start)) /\
  exists msg,
    fst (youtube_POST Later
           (Demo.fallback_host
              (inl (Demo.api_error 401 "invalid_api_key"
                      "401 Incorrect API key provided")))
           (posted [("url", Demo.watch_url)]) Demo.start)
    = Returns (json (ErrorBody msg) 401%Z).
Proof.
  split.
  - exact (proj1 resolver_failure_statuses Later
             (Demo.native_host Demo.long_caption)
             {| request_json := inr (VObject [("url", VNumber (S754_finite false 6472691299647488 (-19)))]) |}
             Demo.start).
  - refine (proj2 resolver_failure_statuses Later
              (Demo.fallback_host
                 (inl (Demo.api_error 401 "invalid_api_key"
                         "401 Incorrect API key provided")))
              (posted [("url", Demo.watch_url)]) Demo.watch_url "abc12345678"
              Demo.start Demo.info
              (Demo.api_error 401 "invalid_api_key" "401 Incorrect API key provided")
              eq_refl _ eq_refl eq_refl eq_refl).
    unfold reaches_fallback.
    repeat match goal with
           | |- _ /\ _ => split
           | |- _ <> _ => discriminate
           | |- _ \/ _ => right
           | |- _ = _ => reflexivity
           end.
Defined.

End ResolverRequest.

(** * The text cleaner from the request on *)

Module CleanerRequest.
Import Js Eff Anthropic Http Handlers.

(** For a body whose [content] and [task] are strings or absent, which is
    what the page sends, the handler is [Anthropic.POST]. *)
Lemma anthropic_POST_strings (rt : Runtime) (h : Host)
    (members : list (string * Value)) (content task : option string) (w : World) :
  member "content" members = option_map VString content ->
  member "task" members = option_map VString task ->
  anthropic_POST rt h {| request_json := inr (VObject members) |} w
  = POST h content task w.
Proof.
  intros Hc Ht.
  unfold anthropic_POST, bind, settle, destructure, ret. cbn [request_json].
  rewrite Hc, Ht. destruct content as [c|], task as [t|]; reflexivity.
Qed.

(** The cleaner route throws exactly when the body of the request is not
    JSON or is [null], and then before anything is sent.  Every other
    request is answered, with status 200, 400 or 500, and the
    text-generation service is sent one request at most: none, or the one
    built from the [content] and the [task] of the body, each turned into a
    string. *)
Theorem cleaner_answers_or_throws (rt : Runtime) (h : Host) (request : Http.Request)
    (w : World) :
  match request_json request with
  | inl e => anthropic_POST rt h request w = (Throws e, w)
  | inr VNull => exists e, anthropic_POST rt h request w = (Throws e, w)
  | inr body =>
      exists resp,
        fst (anthropic_POST rt h request w) = Returns resp /\
        (status resp = 200%Z \/ status resp = 400%Z \/ status resp = 500%Z) /\
        (sent (snd (anthropic_POST rt h request w)) = sent w \/
         exists members cv tv c k,
           body = VObject members /\
           member "content" members = Some cv /\ ToString rt cv = inr c /\
           member "task" members = Some tv /\ ToString rt tv = inr k /\
           sent (snd (anthropic_POST rt h request w)) = sent w ++ [Anthropic.request c k])
  end.
Proof.
  destruct request as [[e|body]]; cbn [request_json]; [reflexivity|].
  destruct body as [|b|x|s|items|members];
    try (eexists; reflexivity);
    try (eexists; split; [reflexivity|]; cbn; auto).
  unfold anthropic_POST, bind, settle, destructure, ret, throw, try_catch, create.
  cbn [request_json].
  destruct (member "content" members) as [cv|] eqn:Hc;
    [|destruct (member "task" members);
      (eexists; split; [reflexivity|]; cbn; auto)].
  destruct (member "task" members) as [tv|] eqn:Ht;
    [|eexists; split; [reflexivity|]; cbn; auto].
  destruct (truthy_value (Some cv)), (truthy_value (Some tv));
    cbn [negb orb];
    try (eexists; split; [reflexivity|]; cbn; auto).
  destruct (truthy (ANTHROPIC_API_KEY h)); cbn [negb];
    [|eexists; split; [reflexivity|]; cbn; auto].
  destruct (ToString rt tv) as [e|k] eqn:Hk;
    [eexists; split; [reflexivity|]; cbn; auto|].
  destruct (ToString rt cv) as [e|c] eqn:Hcs;
    [eexists; split; [reflexivity|]; cbn; auto|].
  destruct (messages_create h (Anthropic.request c k)) as [e|[|first rest]];
    (eexists; split; [reflexivity|]; cbn [fst snd sent json status];
     split; [auto | right; exists members, cv, tv, c, k; auto 10]).
Qed.

End CleanerRequest.
